(** * Water-filling power allocation: the solvers of [Waterfilling_GNN.ipynb]

    A shallow embedding of the three numerical functions of the notebook,

    - [waterfilling_backtracking] (active-set elimination),
    - [waterfilling_bisection]    (bracketed search on the water level),
    - [compute_weighted_rate]     (weighted sum rate of an allocation),

    and the properties the specification states about them.

    Numbers.  The notebook computes on [torch] tensors of float32, and
    the two solvers use only [+ - * /], comparisons and [max].  They are
    embedded twice.

    - [F32] is the code as it runs: every operation is the IEEE 754
      binary32 operation of [SpecFloat], with rounding, signed zeros,
      infinities and nan.
    - The definitions over [Q] are the same code in exact arithmetic: the
      algorithm without rounding.  There [x / 0] is [0] where torch yields
      [inf] or [nan], so statements about computed values are made where
      the divisors are non-zero (positive weights and gains, or a concrete
      input).

    A statement says which of the two it is about.  [compute_weighted_rate]
    needs [log2] and is embedded over [R].

    Control.  A one-dimensional tensor is a [list]; an element-wise
    operation of two tensors goes through [broadcast], which fails with
    torch's [RuntimeError] on incompatible lengths.  Python exceptions are
    carried by [Raised], named by their class.  A [while] loop is
    [while_loop], which takes fuel, counts the iterations it starts and
    records how it was left. *)

From Stdlib Require Import String List Bool Arith Lia ZArith.
From Stdlib Require Import QArith Qabs Qminmax Reals Psatz.
From Stdlib Require Import SpecFloat Zpower.
Import ListNotations.

Set Implicit Arguments.

(** ** Outcomes of a Python call *)

Inductive outcome (A : Type) : Type :=
| Returned (a : A)
| Raised (exc : string)
| OutOfFuel.

Arguments Returned {A} a.
Arguments Raised {A} exc.
Arguments OutOfFuel {A}.

Definition bind {A B : Type} (m : outcome A) (k : A -> outcome B) : outcome B :=
  match m with
  | Returned a => k a
  | Raised exc => Raised exc
  | OutOfFuel => OutOfFuel
  end.

Notation "x <- m ;; k" := (bind m (fun x => k))
  (at level 61, m at next level, right associativity).

(** ** One-dimensional tensors *)

Section Tensor.

Variables A B C : Type.

(** Element-wise combination of two tensors of the same length. *)
Fixpoint zip_with (f : A -> B -> C) (a : list A) (b : list B) : list C :=
  match a, b with
  | x :: a', y :: b' => f x y :: zip_with f a' b'
  | _, _ => []
  end.

(** torch's broadcasting of a binary operation on two 1-D tensors: equal
    lengths combine element-wise, a tensor of length one is stretched
    over the other, anything else is a [RuntimeError]. *)
Definition broadcast (f : A -> B -> C) (a : list A) (b : list B)
  : outcome (list C) :=
  if (length a =? length b)%nat then Returned (zip_with f a b)
  else match a, b with
       | [x], _ => Returned (map (f x) b)
       | _, [y] => Returned (map (fun x => f x y) a)
       | _, _ => Raised "RuntimeError"%string
       end.

End Tensor.

(** [torch.where(mask)[0]]: the positions at which [mask] holds. *)
Fixpoint where_from (i : nat) (mask : list bool) : list nat :=
  match mask with
  | [] => []
  | b :: mask' =>
      if b then i :: where_from (S i) mask' else where_from (S i) mask'
  end.

Definition torch_where (mask : list bool) : list nat := where_from 0 mask.

(** [t[i] = v] for one in-range position. *)
Fixpoint set_nth (A : Type) (t : list A) (i : nat) (v : A) : list A :=
  match t, i with
  | [], _ => []
  | _ :: t', O => v :: t'
  | x :: t', S i' => x :: set_nth t' i' v
  end.

(** [t[idx] = v] for an index tensor: an [IndexError] when a position is
    out of range, otherwise every listed position is overwritten. *)
Definition index_put (A : Type) (t : list A) (idx : list nat) (v : A)
  : outcome (list A) :=
  if forallb (fun i => (i <? length t)%nat) idx
  then Returned (fold_left (fun t' i => set_nth t' i v) idx t)
  else Raised "IndexError"%string.

(** ** Loops *)

(** What one execution of a loop body asks for. *)
Inductive signal (St V : Type) : Type :=
| Next (s : St)      (* fall through to the next test of the condition *)
| Break (s : St)     (* [break] *)
| Return (v : V).    (* [return v] from inside the body *)

Arguments Next {St V} s.
Arguments Break {St V} s.
Arguments Return {St V} v.

(** How a loop was left. *)
Inductive loop_exit (St V : Type) : Type :=
| CondFalse (s : St)
| Broke (s : St)
| ReturnedFrom (v : V).

Arguments CondFalse {St V} s.
Arguments Broke {St V} s.
Arguments ReturnedFrom {St V} v.

(** [while cond: body], started in state [s] after [iters] iterations.
    The result pairs the number of iterations started with the exit. *)
Fixpoint while_loop (St V : Type) (fuel : nat) (cond : St -> bool)
  (body : St -> outcome (signal St V)) (iters : nat) (s : St)
  : outcome (nat * loop_exit St V) :=
  match fuel with
  | O => OutOfFuel
  | S fuel' =>
      if cond s then
        sig <- body s ;;
        match sig with
        | Next s' => while_loop fuel' cond body (S iters) s'
        | Break s' => Returned (S iters, Broke s')
        | Return v => Returned (S iters, ReturnedFrom v)
        end
      else Returned (iters, CondFalse s)
  end.

(** ** The two solvers in exact arithmetic, over [Q] *)

(** The code of the solvers with every operation exact: what the
    algorithm computes when nothing is rounded.  The code as torch runs
    it, in float32, is [F32] below. *)

Section Solvers.

Local Open Scope Q_scope.

Definition tensor : Type := list Q.

Definition Qlt_bool (x y : Q) : bool := negb (Qle_bool y x).

(** [torch.sum] *)
Definition tsum (t : tensor) : Q := fold_right Qplus 0 t.

Definition ones (n : nat) : tensor := repeat 1 n.
Definition zeros (n : nat) : tensor := repeat 0 n.

Definition total_power : Q := 1.

(** *** [waterfilling_backtracking] *)

(** The variables of the function that the loop reads or writes;
    [allocated_power] is unbound until the body has run once. *)
Record bt_state : Type := {
  I_u : tensor;
  allocated_power : option tensor
}.

Definition backtracking_cond (st : bt_state) : bool :=
  Qlt_bool 0 (tsum (I_u st)).

Definition backtracking_body (user_weights channel_gains : tensor)
  (st : bt_state) : outcome (signal bt_state tensor) :=
  inv_g <- broadcast Qdiv (map (fun i => i * 1) (I_u st)) channel_gains ;;
  act_w <- broadcast Qmult (I_u st) user_weights ;;
  let inv_mu := (total_power + tsum inv_g) / tsum act_w in
  trial <- broadcast Qminus (map (fun w => w * inv_mu) user_weights)
                            (map (fun g => 1 / g) channel_gains) ;;
  power <- broadcast Qmult (I_u st) trial ;;
  let Sinactive := torch_where (map (fun p => Qlt_bool p 0) power) in
  if (length Sinactive =? 0)%nat
  then Returned (Break {| I_u := I_u st; allocated_power := Some power |})
  else
    I_u' <- index_put (I_u st) Sinactive 0 ;;
    Returned (Next {| I_u := I_u'; allocated_power := Some power |}).

Definition backtracking_init (user_weights : tensor) : bt_state :=
  let num_users := length user_weights in
  {| I_u := ones num_users; allocated_power := None |}.

(** The [while] loop of the function, with its iteration count and exit. *)
Definition backtracking_while (fuel : nat) (user_weights channel_gains : tensor)
  : outcome (nat * loop_exit bt_state tensor) :=
  while_loop fuel backtracking_cond
    (backtracking_body user_weights channel_gains) 0
    (backtracking_init user_weights).

(** [return allocated_power] after the loop. *)
Definition backtracking_return (ex : loop_exit bt_state tensor)
  : outcome tensor :=
  match ex with
  | ReturnedFrom v => Returned v
  | CondFalse st | Broke st =>
      match allocated_power st with
      | Some p => Returned p
      | None => Raised "UnboundLocalError"%string
      end
  end.

Definition waterfilling_backtracking (fuel : nat)
  (user_weights channel_gains : tensor) : outcome tensor :=
  r <- backtracking_while fuel user_weights channel_gains ;;
  backtracking_return (snd r).

(** *** [waterfilling_bisection] *)

Record bs_state : Type := {
  mu_min : Q;
  mu_max : Q
}.

Definition bisection_cond (epsilon : Q) (st : bs_state) : bool :=
  Qlt_bool epsilon (mu_max st - mu_min st).

Definition bisection_mid (st : bs_state) : Q := (mu_min st + mu_max st) / 2.

(** The [if power_sum <= total_power] of the body. *)
Definition bisection_update (st : bs_state) (mu power_sum : Q) : bs_state :=
  if Qle_bool power_sum total_power
  then {| mu_min := mu; mu_max := mu_max st |}
  else {| mu_min := mu_min st; mu_max := mu |}.

(** The body ends in [return allocated_power], at the indentation of the
    loop body: the updated bracket is dropped. *)
Definition bisection_body (user_weights channel_gains : tensor)
  (num_users : nat) (st : bs_state) : outcome (signal bs_state tensor) :=
  let mu := bisection_mid st in
  trial <- broadcast Qminus (map (fun w => w * mu) user_weights)
                            (map (fun g => 1 / g) channel_gains) ;;
  power <- broadcast Qmax (zeros num_users) trial ;;
  let power_sum := tsum power in
  let st' := bisection_update st mu power_sum in
  Returned (Return power).

Definition bisection_init (user_weights channel_gains : tensor) : bs_state :=
  {| mu_min := 0;
     mu_max := (total_power + tsum (map (fun g => 1 / g) channel_gains))
               / tsum user_weights + (1 # 10) |}.

Definition bisection_while (fuel : nat) (user_weights channel_gains : tensor)
  (epsilon : Q) : outcome (nat * loop_exit bs_state tensor) :=
  let st0 := bisection_init user_weights channel_gains in
  let num_users := length user_weights in
  while_loop fuel (bisection_cond epsilon)
    (bisection_body user_weights channel_gains num_users) 0 st0.

(** A Python function that runs off its end returns [None]. *)
Definition waterfilling_bisection (fuel : nat)
  (user_weights channel_gains : tensor) (epsilon : Q)
  : outcome (option tensor) :=
  r <- bisection_while fuel user_weights channel_gains epsilon ;;
  match snd r with
  | ReturnedFrom v => Returned (Some v)
  | CondFalse _ | Broke _ => Returned None
  end.

End Solvers.

(** ** The weighted sum rate, over [R] *)

Section Evaluator.

Local Open Scope R_scope.

Definition log2 (x : R) : R := Rlog 2 x.

Definition rsum (t : list R) : R := fold_right Rplus 0 t.

Definition compute_weighted_rate
  (channel_gains user_weights allocated_power : list R) : outcome R :=
  SNR <- broadcast Rmult channel_gains allocated_power ;;
  weighted_rate <- broadcast Rmult user_weights
                     (map (fun s => log2 (1 + s)) SNR) ;;
  Returned (rsum weighted_rate).

(** The weighted sum rate as the specification writes it:
    the sum over the agents u of
    [weight_u * log2 (1 + gain_u * allocation_u)]. *)
Fixpoint weighted_sum_rate (weights gains allocation : list R) : R :=
  match weights, gains, allocation with
  | w :: weights', g :: gains', p :: allocation' =>
      w * log2 (1 + g * p) + weighted_sum_rate weights' gains' allocation'
  | _, _, _ => 0
  end.

End Evaluator.

(** ** Vocabulary of the specification *)

Section Vocabulary.

Local Open Scope Q_scope.

Definition positive (t : tensor) : Prop := Forall (fun x => 0 < x) t.
Definition nonneg (t : tensor) : Prop := Forall (fun x => 0 <= x) t.

(** The preconditions of both solvers: N >= 1 agents, one weight and one
    gain per agent, all of them strictly positive. *)
Definition valid_input (user_weights channel_gains : tensor) : Prop :=
  (1 <= length user_weights)%nat /\
  length user_weights = length channel_gains /\
  positive user_weights /\ positive channel_gains.

(** An indicator vector holds zeros and ones. *)
Definition binary (I : tensor) : Prop := Forall (fun i => i = 0 \/ i = 1) I.

(** The number of active agents of an indicator vector. *)
Definition active (I : tensor) : nat :=
  length (filter (fun i => Qlt_bool 0 i) I).

(** The trial water level and trial allocation that the loop body of
    [waterfilling_backtracking] computes from the indicator [I], when all
    three tensors have one length. *)
Definition water_level (I user_weights channel_gains : tensor) : Q :=
  (total_power + tsum (zip_with Qdiv (map (fun i => i * 1) I) channel_gains))
  / tsum (zip_with Qmult I user_weights).

Definition trial_power (I user_weights channel_gains : tensor) : tensor :=
  zip_with Qmult I
    (zip_with Qminus
       (map (fun w => w * water_level I user_weights channel_gains)
          user_weights)
       (map (fun g => 1 / g) channel_gains)).

(** The indicator after [I_u[Sinactive] = 0]. *)
Definition deactivate (I power : tensor) : tensor :=
  zip_with (fun i (b : bool) => if b then 0 else i) I
    (map (fun p => Qlt_bool p 0) power).

(** The state of the loop at its exit, when it has one. *)
Definition exit_state (St V : Type) (ex : loop_exit St V) : option St :=
  match ex with
  | CondFalse s | Broke s => Some s
  | ReturnedFrom _ => None
  end.

End Vocabulary.

(** ** The graph of a sample *)

Section Samples.

(** [[(i,j) for i in range(n) for j in range(n) if i != j]] *)
Definition edge_pairs (num_users : nat) : list (nat * nat) :=
  flat_map
    (fun i => map (fun j => (i, j))
                (filter (fun j => negb (i =? j)%nat) (seq 0 num_users)))
    (seq 0 num_users).

End Samples.

(** ** The two solvers, in float32 *)

(** The notebook builds its tensors with torch's default dtype, float32,
    and every operation of the solvers rounds to float32.  [F32] is the
    transcription of the two solvers with these operations: IEEE 754
    binary32 (24 bits of precision, round to nearest even, signed zeros,
    infinities and nan) as [SpecFloat] specifies it.  A Python scalar that
    meets a tensor is converted to float32 first: the integers 0, 1 and 2
    exactly, the literal [0.1] and the argument [epsilon] from the double
    that Python holds.  [torch.sum] is read as accumulation from left to
    right, starting at 0. *)
Module F32.

Definition prec : Z := 24.
Definition emax : Z := 128.

Definition float : Type := spec_float.
Definition tensor : Type := list float.

Definition add : float -> float -> float := SFadd prec emax.
Definition sub : float -> float -> float := SFsub prec emax.
Definition mul : float -> float -> float := SFmul prec emax.
Definition div : float -> float -> float := SFdiv prec emax.
Definition ltb : float -> float -> bool := SFltb.
Definition leb : float -> float -> bool := SFleb.

(** The float32 of an integer. *)
Definition of_Z (z : Z) : float := binary_normalize prec emax z 0 false.

Definition zero : float := S754_zero false.
Definition one : float := of_Z 1.
Definition two : float := of_Z 2.

(** The double that Python reads from the decimal literal [n/d], for
    [n] and [d] that binary64 holds exactly, and its cast to float32. *)
Definition double (n d : Z) : spec_float :=
  SFdiv 53 1024 (binary_normalize 53 1024 n 0 false)
                (binary_normalize 53 1024 d 0 false).

Definition of_double (x : spec_float) : float :=
  match x with
  | S754_finite s m e => binary_round prec emax s m e
  | _ => x
  end.

(** An entry written [n/d] in [torch.tensor([...])]. *)
Definition of_decimal (n d : Z) : float := of_double (double n d).

(** The exact value of a finite float. *)
Definition F2Q (x : spec_float) : Q :=
  match x with
  | S754_finite s m e =>
      ((if s then -1 else 1) * inject_Z (Zpos m) * (2 ^ e))%Q
  | _ => 0%Q
  end.

Definition is_nan (x : float) : bool :=
  match x with S754_nan => true | _ => false end.

(** [torch.maximum]: nan if an argument is nan, else the larger one. *)
Definition maximum (a b : float) : float :=
  if is_nan a || is_nan b then S754_nan
  else if ltb a b then b else a.

(** [torch.sum] *)
Definition tsum (t : tensor) : float := fold_left add t zero.

Definition ones (n : nat) : tensor := repeat one n.
Definition zeros (n : nat) : tensor := repeat zero n.

Definition total_power : float := one.

(** *** [waterfilling_backtracking] *)

Record bt_state : Type := {
  I_u : tensor;
  allocated_power : option tensor
}.

Definition backtracking_cond (st : bt_state) : bool :=
  ltb zero (tsum (I_u st)).

Definition backtracking_body (user_weights channel_gains : tensor)
  (st : bt_state) : outcome (signal bt_state tensor) :=
  inv_g <- broadcast div (map (fun i => mul i one) (I_u st)) channel_gains ;;
  act_w <- broadcast mul (I_u st) user_weights ;;
  let inv_mu := div (add total_power (tsum inv_g)) (tsum act_w) in
  trial <- broadcast sub (map (fun w => mul w inv_mu) user_weights)
                         (map (fun g => div one g) channel_gains) ;;
  power <- broadcast mul (I_u st) trial ;;
  let Sinactive := torch_where (map (fun p => ltb p zero) power) in
  if (length Sinactive =? 0)%nat
  then Returned (Break {| I_u := I_u st; allocated_power := Some power |})
  else
    I_u' <- index_put (I_u st) Sinactive zero ;;
    Returned (Next {| I_u := I_u'; allocated_power := Some power |}).

Definition backtracking_init (user_weights : tensor) : bt_state :=
  let num_users := length user_weights in
  {| I_u := ones num_users; allocated_power := None |}.

Definition backtracking_while (fuel : nat) (user_weights channel_gains : tensor)
  : outcome (nat * loop_exit bt_state tensor) :=
  while_loop fuel backtracking_cond
    (backtracking_body user_weights channel_gains) 0
    (backtracking_init user_weights).

Definition backtracking_return (ex : loop_exit bt_state tensor)
  : outcome tensor :=
  match ex with
  | ReturnedFrom v => Returned v
  | CondFalse st | Broke st =>
      match allocated_power st with
      | Some p => Returned p
      | None => Raised "UnboundLocalError"%string
      end
  end.

Definition waterfilling_backtracking (fuel : nat)
  (user_weights channel_gains : tensor) : outcome tensor :=
  r <- backtracking_while fuel user_weights channel_gains ;;
  backtracking_return (snd r).

(** *** [waterfilling_bisection] *)

Record bs_state : Type := {
  mu_min : float;
  mu_max : float
}.

(** [epsilon] is the Python float of the caller; the comparison casts it
    to float32. *)
Definition bisection_cond (epsilon : spec_float) (st : bs_state) : bool :=
  ltb (of_double epsilon) (sub (mu_max st) (mu_min st)).

Definition bisection_mid (st : bs_state) : float :=
  div (add (mu_min st) (mu_max st)) two.

Definition bisection_update (st : bs_state) (mu power_sum : float)
  : bs_state :=
  if leb power_sum total_power
  then {| mu_min := mu; mu_max := mu_max st |}
  else {| mu_min := mu_min st; mu_max := mu |}.

Definition bisection_body (user_weights channel_gains : tensor)
  (num_users : nat) (st : bs_state) : outcome (signal bs_state tensor) :=
  let mu := bisection_mid st in
  trial <- broadcast sub (map (fun w => mul w mu) user_weights)
                         (map (fun g => div one g) channel_gains) ;;
  power <- broadcast maximum (zeros num_users) trial ;;
  let power_sum := tsum power in
  let st' := bisection_update st mu power_sum in
  Returned (Return power).

Definition bisection_init (user_weights channel_gains : tensor) : bs_state :=
  {| mu_min := zero;
     mu_max :=
       add (div (add total_power
                   (tsum (map (fun g => div one g) channel_gains)))
              (tsum user_weights))
           (of_decimal 1 10) |}.

Definition bisection_while (fuel : nat) (user_weights channel_gains : tensor)
  (epsilon : spec_float) : outcome (nat * loop_exit bs_state tensor) :=
  let st0 := bisection_init user_weights channel_gains in
  let num_users := length user_weights in
  while_loop fuel (bisection_cond epsilon)
    (bisection_body user_weights channel_gains num_users) 0 st0.

Definition waterfilling_bisection (fuel : nat)
  (user_weights channel_gains : tensor) (epsilon : spec_float)
  : outcome (option tensor) :=
  r <- bisection_while fuel user_weights channel_gains epsilon ;;
  match snd r with
  | ReturnedFrom v => Returned (Some v)
  | CondFalse _ | Broke _ => Returned None
  end.

(** *** Vocabulary *)

(** A float32 that is finite and greater than 0. *)
Definition positive_float (x : float) : Prop :=
  valid_binary prec emax x = true /\ (0 < F2Q x)%Q.

(** The preconditions of the solvers, for float32 tensors. *)
Definition valid_input (user_weights channel_gains : tensor) : Prop :=
  (1 <= length user_weights)%nat /\
  length user_weights = length channel_gains /\
  Forall positive_float user_weights /\ Forall positive_float channel_gains.

Definition binary (I : tensor) : Prop :=
  Forall (fun i => i = zero \/ i = one) I.

Definition active (I : tensor) : nat :=
  length (filter (fun i => ltb zero i) I).

(** The trial allocation of the loop body, on tensors of one length. *)
Definition water_level (I user_weights channel_gains : tensor) : float :=
  div (add total_power
         (tsum (zip_with div (map (fun i => mul i one) I) channel_gains)))
      (tsum (zip_with mul I user_weights)).

Definition trial_power (I user_weights channel_gains : tensor) : tensor :=
  zip_with mul I
    (zip_with sub
       (map (fun w => mul w (water_level I user_weights channel_gains))
          user_weights)
       (map (fun g => div one g) channel_gains)).

Definition deactivate (I power : tensor) : tensor :=
  zip_with (fun i (b : bool) => if b then zero else i) I
    (map (fun p => ltb p zero) power).

(** The clipped rule at water level [mu], as the bisection computes it. *)
Definition clipped_allocation (mu : float) (user_weights channel_gains : tensor)
  : tensor :=
  zip_with (fun w g => maximum zero (sub (mul w mu) (div one g)))
    user_weights channel_gains.

(** No component compares below zero. *)
Definition no_negative (p : tensor) : Prop :=
  Forall (fun x => ltb x zero = false) p.

(** Some component compares below zero. *)
Definition some_negative (p : tensor) : Prop :=
  Exists (fun x => ltb x zero = true) p.

(** Plus infinity, or a finite float of at least 1. *)
Definition at_least_one (s : float) : Prop :=
  s = S754_infinity false \/
  exists (m : BinNums.positive) (e : Z),
    s = S754_finite false m e /\ (2 ^ 23 <= Z.pos m)%Z /\ (-23 <= e)%Z.

End F32.

Arguments F32.add : simpl never.
Arguments F32.sub : simpl never.
Arguments F32.mul : simpl never.
Arguments F32.div : simpl never.
Arguments F32.ltb : simpl never.
Arguments F32.leb : simpl never.
Arguments F32.maximum : simpl never.
Arguments F32.of_Z : simpl never.
Arguments F32.of_double : simpl never.
Arguments F32.of_decimal : simpl never.
Arguments F32.tsum : simpl never.
Arguments F32.one : simpl never.
Arguments F32.two : simpl never.
Arguments F32.total_power : simpl never.

(** Decides [F32.valid_input] on concrete tensors. *)
Ltac float_valid_input :=
  split; [simpl; lia|]; split; [reflexivity|];
  split;
  repeat (apply Forall_cons; [split; vm_compute; reflexivity|]);
  apply Forall_nil.

(** * Properties of the embedding *)

(** ** Tensors and loops *)

Section TensorFacts.

Variables A B C : Type.

Lemma zip_with_length (f : A -> B -> C) (a : list A) (b : list B) :
  length a = length b -> length (zip_with f a b) = length a.
Proof.
  revert b; induction a as [|x a IH]; intros [|y b] H; simpl in *;
    try discriminate; auto.
Qed.

Lemma broadcast_same_length (f : A -> B -> C) (a : list A) (b : list B) :
  length a = length b -> broadcast f a b = Returned (zip_with f a b).
Proof.
  intros H. unfold broadcast. rewrite H, Nat.eqb_refl. reflexivity.
Qed.

(** [broadcast] raises nothing but torch's [RuntimeError]. *)
Lemma broadcast_raises (f : A -> B -> C) (a : list A) (b : list B) exc :
  broadcast f a b = Raised exc -> exc = "RuntimeError"%string.
Proof.
  unfold broadcast. destruct (length a =? length b)%nat; [discriminate|].
  destruct a as [|x [|x' a]], b as [|y [|y' b]]; simpl;
    intros H; inversion H; reflexivity.
Qed.

End TensorFacts.

Lemma where_from_nil (k : nat) (mask : list bool) :
  where_from k mask = [] <-> Forall (fun b => b = false) mask.
Proof.
  revert k; induction mask as [|b mask IH]; intros k; simpl.
  - split; auto.
  - destruct b.
    + split; [discriminate | intros H; inversion H; discriminate].
    + rewrite IH. split; [auto | intros H; inversion H; assumption].
Qed.

Lemma where_from_in_range (k n : nat) (mask : list bool) :
  (k + length mask <= n)%nat ->
  forallb (fun i => (i <? n)%nat) (where_from k mask) = true.
Proof.
  revert k; induction mask as [|b mask IH]; intros k H; simpl in *; auto.
  assert (Hk : (k <? n)%nat = true) by (apply Nat.ltb_lt; lia).
  destruct b; simpl; rewrite ?Hk; apply IH; lia.
Qed.

Lemma set_nth_app (A : Type) (pre : list A) (x : A) (rest : list A) (v : A) :
  set_nth (pre ++ x :: rest) (length pre) v = pre ++ v :: rest.
Proof.
  induction pre as [|y pre IH]; simpl; [reflexivity | now rewrite IH].
Qed.

(** Overwriting the positions found by [torch.where] is a masked update. *)
Lemma fold_set_where (A : Type) (v : A) (mask : list bool) :
  forall (pre rest : list A),
    length rest = length mask ->
    fold_left (fun t i => set_nth t i v) (where_from (length pre) mask)
      (pre ++ rest)
    = pre ++ zip_with (fun x (b : bool) => if b then v else x) rest mask.
Proof.
  induction mask as [|b mask IH]; intros pre [|x rest] H; simpl in *;
    try discriminate; auto.
  injection H as H.
  destruct b; simpl.
  - rewrite set_nth_app.
    replace (pre ++ v :: rest) with ((pre ++ [v]) ++ rest)
      by (rewrite <- app_assoc; reflexivity).
    replace (S (length pre)) with (length (pre ++ [v]))
      by (rewrite length_app; simpl; lia).
    rewrite IH by assumption. rewrite <- app_assoc. reflexivity.
  - replace (pre ++ x :: rest) with ((pre ++ [x]) ++ rest)
      by (rewrite <- app_assoc; reflexivity).
    replace (S (length pre)) with (length (pre ++ [x]))
      by (rewrite length_app; simpl; lia).
    rewrite IH by assumption. rewrite <- app_assoc. reflexivity.
Qed.

Lemma index_put_where (A : Type) (t : list A) (mask : list bool) (v : A) :
  length t = length mask ->
  index_put t (torch_where mask) v
  = Returned (zip_with (fun x (b : bool) => if b then v else x) t mask).
Proof.
  intros H. unfold index_put, torch_where.
  rewrite where_from_in_range by (simpl; lia).
  f_equal. apply (fold_set_where v mask [] t H).
Qed.

Lemma index_put_raises (A : Type) (t : list A) idx (v : A) exc :
  index_put t idx v = Raised exc -> exc = "IndexError"%string.
Proof.
  unfold index_put. destruct (forallb _ idx); intros H; inversion H; reflexivity.
Qed.

(** A loop raises only what its body raises. *)
Lemma while_loop_raises (St V : Type) (cond : St -> bool)
  (body : St -> outcome (signal St V)) (exc : string) :
  (forall s, body s <> Raised exc) ->
  forall fuel iters s, while_loop fuel cond body iters s <> Raised exc.
Proof.
  intros Hbody. induction fuel as [|fuel IH]; intros iters s; simpl.
  - discriminate.
  - destruct (cond s); [|discriminate].
    specialize (Hbody s). destruct (body s) as [[s'|s'|v]|e|]; simpl;
      try discriminate; auto.
    intros H. apply Hbody. inversion H. reflexivity.
Qed.

(** ** Arithmetic of the indicator vector *)

Section IndicatorFacts.

Local Open Scope Q_scope.

Lemma Qlt_bool_iff (x y : Q) : Qlt_bool x y = true <-> x < y.
Proof.
  unfold Qlt_bool. rewrite negb_true_iff.
  split; intros H.
  - apply Qnot_le_lt. intros Hle. apply Qle_bool_iff in Hle. congruence.
  - destruct (Qle_bool y x) eqn:E; [|reflexivity].
    apply Qle_bool_iff in E. lra.
Qed.

Lemma Qlt_bool_false (x y : Q) : Qlt_bool x y = false <-> y <= x.
Proof.
  unfold Qlt_bool. rewrite negb_false_iff. apply Qle_bool_iff.
Qed.

Lemma tsum_binary_nonneg (I : tensor) : binary I -> 0 <= tsum I.
Proof.
  induction 1 as [|i I [Hi|Hi] _ IH]; simpl; subst; lra.
Qed.

Lemma active_cons (i : Q) (I : tensor) :
  active (i :: I) = ((if Qlt_bool 0 i then 1 else 0) + active I)%nat.
Proof. unfold active; simpl. destruct (Qlt_bool 0 i); reflexivity. Qed.

(** The loop condition [torch.sum(I_u) > 0] counts active agents. *)
Lemma cond_active (I : tensor) :
  binary I -> (Qlt_bool 0 (tsum I) = true <-> (1 <= active I)%nat).
Proof.
  intros HI. rewrite Qlt_bool_iff.
  induction HI as [|i I [Hi|Hi] HI IH]; simpl.
  - unfold active; simpl. split; [lra | lia].
  - subst. rewrite active_cons. change (Qlt_bool 0 0) with false. simpl.
    rewrite <- IH. split; lra.
  - subst. rewrite active_cons. change (Qlt_bool 0 1) with true.
    pose proof (tsum_binary_nonneg HI). split; [lia | lra].
Qed.

Lemma tsum_active_weights_nonneg (I w : tensor) :
  binary I -> positive w -> 0 <= tsum (zip_with Qmult I w).
Proof.
  intros HI; revert w.
  induction HI as [|i I [Hi|Hi] _ IH]; intros [|x w] Hw; simpl; try lra;
    inversion Hw; subst; specialize (IH w ltac:(assumption)); lra.
Qed.

Lemma tsum_active_weights_pos (I w : tensor) :
  binary I -> positive w -> length I = length w -> (1 <= active I)%nat ->
  0 < tsum (zip_with Qmult I w).
Proof.
  intros HI; revert w.
  induction HI as [|i I [Hi|Hi] HI IH]; intros [|x w] Hw Hlen Hact;
    simpl in *; try discriminate.
  - unfold active in Hact; simpl in Hact; lia.
  - subst. rewrite active_cons in Hact. change (Qlt_bool 0 0) with false in Hact.
    inversion Hw; subst. injection Hlen as Hlen.
    specialize (IH w ltac:(assumption) Hlen Hact). lra.
  - subst. inversion Hw; subst.
    pose proof (tsum_active_weights_nonneg HI ltac:(eassumption)). lra.
Qed.

(** The trial allocation of the active agents sums to
    [c * sum(I*w) - sum(I*1/g)] for any water level [c]. *)
Lemma tsum_trial (c : Q) (I w g : tensor) :
  length I = length w -> length w = length g ->
  tsum (zip_with Qmult I
          (zip_with Qminus (map (fun x => x * c) w) (map (fun x => 1 / x) g)))
  == c * tsum (zip_with Qmult I w)
     - tsum (zip_with Qdiv (map (fun i => i * 1) I) g).
Proof.
  revert w g; induction I as [|i I IH]; intros [|x w] [|y g] H1 H2;
    simpl in *; try discriminate; try ring.
  injection H1 as H1. injection H2 as H2.
  rewrite (IH w g H1 H2). unfold Qdiv. ring.
Qed.

(** With the water level of the body, that sum is the budget. *)
Lemma tsum_trial_power (I w g : tensor) :
  length I = length w -> length w = length g ->
  0 < tsum (zip_with Qmult I w) ->
  tsum (trial_power I w g) == total_power.
Proof.
  intros H1 H2 Hpos. unfold trial_power.
  rewrite (tsum_trial (water_level I w g) I w g H1 H2).
  unfold water_level, total_power. field. lra.
Qed.

Lemma trial_power_length (I w g : tensor) :
  length I = length w -> length w = length g ->
  length (trial_power I w g) = length w.
Proof.
  intros H1 H2. unfold trial_power.
  rewrite zip_with_length; [congruence|].
  rewrite zip_with_length; rewrite !length_map; congruence.
Qed.

End IndicatorFacts.

(** ** One iteration of the elimination loop *)

Section EliminationStep.

Local Open Scope Q_scope.

Lemma deactivate_length (I power : tensor) :
  length I = length power -> length (deactivate I power) = length I.
Proof.
  intros H. unfold deactivate. apply zip_with_length.
  rewrite length_map. exact H.
Qed.

Lemma deactivate_binary (I power : tensor) :
  binary I -> binary (deactivate I power).
Proof.
  intros HI; revert power.
  induction HI as [|i I Hi _ IH]; intros [|p power]; simpl;
    try constructor; auto.
  - destruct (Qlt_bool p 0); auto.
  - apply IH.
Qed.

(** An inactive agent's trial allocation is [0 * x], never negative: the
    agents found by [torch.where] are all active. *)
Lemma active_deactivate_le (I trial : tensor) :
  binary I ->
  (active (deactivate I (zip_with Qmult I trial)) <= active I)%nat.
Proof.
  intros HI; revert trial.
  induction HI as [|i I Hi _ IH]; intros [|t trial]; simpl; auto.
  - apply Nat.le_0_l.
  - unfold deactivate in *; simpl. rewrite !active_cons.
    specialize (IH trial).
    destruct (Qlt_bool (i * t) 0); [change (Qlt_bool 0 0) with false|];
      destruct (Qlt_bool 0 i); lia.
Qed.

Lemma active_deactivate_lt (I trial : tensor) (k : nat) :
  binary I ->
  where_from k (map (fun p => Qlt_bool p 0) (zip_with Qmult I trial)) <> [] ->
  (active (deactivate I (zip_with Qmult I trial)) < active I)%nat.
Proof.
  intros HI; revert trial k.
  induction HI as [|i I Hi HI IH]; intros [|t trial] k; simpl;
    try congruence.
  unfold deactivate in *; simpl. rewrite !active_cons.
  destruct (Qlt_bool (i * t) 0) eqn:E.
  - intros _. change (Qlt_bool 0 0) with false.
    pose proof (active_deactivate_le trial HI) as Hle.
    unfold deactivate in Hle.
    destruct Hi as [Hi|Hi]; subst.
    + apply Qlt_bool_iff in E. lra.
    + change (Qlt_bool 0 1) with true. cbv iota. lia.
  - intros H. specialize (IH trial (S k) H).
    destruct (Qlt_bool 0 i); lia.
Qed.

(** If the elimination left no agent active, every active agent had a
    negative trial allocation. *)
Lemma all_deactivated_sum (I trial : tensor) :
  binary I ->
  active (deactivate I (zip_with Qmult I trial)) = 0%nat ->
  tsum (zip_with Qmult I trial) <= 0.
Proof.
  intros HI; revert trial.
  induction HI as [|i I Hi _ IH]; intros [|t trial]; simpl; try lra.
  unfold deactivate in *; simpl. rewrite active_cons.
  destruct (Qlt_bool (i * t) 0) eqn:E.
  - change (Qlt_bool 0 0) with false. simpl. intros H.
    specialize (IH trial H). apply Qlt_bool_iff in E. lra.
  - destruct Hi as [Hi|Hi]; subst.
    + change (Qlt_bool 0 0) with false. simpl. intros H.
      specialize (IH trial H). lra.
    + change (Qlt_bool 0 1) with true. simpl. discriminate.
Qed.

Lemma no_negative_nonneg (power : tensor) :
  torch_where (map (fun p => Qlt_bool p 0) power) = [] -> nonneg power.
Proof.
  unfold torch_where. rewrite where_from_nil. intros H.
  induction power as [|p power IH]; simpl in *; constructor;
    inversion H; subst.
  - now apply Qlt_bool_false.
  - now apply IH.
Qed.

(** The loop body on tensors of one length: the broadcasts succeed, and
    the indexed assignment is [deactivate]. *)
Lemma backtracking_body_same_length (w g : tensor) (st : bt_state) :
  length (I_u st) = length w -> length w = length g ->
  backtracking_body w g st =
  let power := trial_power (I_u st) w g in
  if (length (torch_where (map (fun p => Qlt_bool p 0) power)) =? 0)%nat
  then Returned (Break {| I_u := I_u st; allocated_power := Some power |})
  else Returned (Next {| I_u := deactivate (I_u st) power;
                         allocated_power := Some power |}).
Proof.
  intros H1 H2. unfold backtracking_body.
  rewrite broadcast_same_length by (rewrite length_map; congruence).
  simpl. rewrite broadcast_same_length by assumption. simpl.
  rewrite broadcast_same_length by (rewrite !length_map; assumption).
  simpl.
  rewrite broadcast_same_length
    by (rewrite zip_with_length; rewrite !length_map; congruence).
  simpl. fold (water_level (I_u st) w g). fold (trial_power (I_u st) w g).
  destruct (length _ =? 0)%nat; [reflexivity|].
  rewrite index_put_where
    by (rewrite length_map, trial_power_length; congruence).
  reflexivity.
Qed.

End EliminationStep.

(** ** The elimination loop as a whole *)

Section EliminationLoop.

Local Open Scope Q_scope.

Variables w g : tensor.
Hypothesis Hvalid : valid_input w g.

(** One iteration started with an active agent: the trial allocation
    sums to the budget, and the body either breaks on a non-negative
    allocation or goes on with fewer, but not zero, active agents. *)
Lemma elimination_step (st : bt_state) :
  length (I_u st) = length w -> binary (I_u st) ->
  (1 <= active (I_u st))%nat ->
  let power := trial_power (I_u st) w g in
  tsum power == total_power /\
  ((backtracking_body w g st
    = Returned (Break {| I_u := I_u st; allocated_power := Some power |})
    /\ nonneg power)
   \/
   (backtracking_body w g st
    = Returned (Next {| I_u := deactivate (I_u st) power;
                        allocated_power := Some power |})
    /\ length (deactivate (I_u st) power) = length w
    /\ binary (deactivate (I_u st) power)
    /\ (1 <= active (deactivate (I_u st) power) < active (I_u st))%nat)).
Proof.
  destruct Hvalid as (HN & Hlen & Hw & Hg).
  intros HlenI Hbin Hact power.
  assert (Hsum : tsum power == total_power).
  { apply tsum_trial_power; auto.
    apply tsum_active_weights_pos; auto. }
  split; [exact Hsum|].
  rewrite (backtracking_body_same_length w g st HlenI Hlen). cbv zeta.
  fold power.
  destruct (length _ =? 0)%nat eqn:E.
  - left. split; [reflexivity|].
    apply no_negative_nonneg. apply Nat.eqb_eq in E.
    now apply length_zero_iff_nil.
  - right. apply Nat.eqb_neq in E.
    set (I1 := deactivate (I_u st) power).
    assert (Hlt : (active I1 < active (I_u st))%nat).
    { apply (active_deactivate_lt _ 0 Hbin).
      intros Hnil. apply E. unfold torch_where.
      fold (trial_power (I_u st) w g) in Hnil. fold power in Hnil.
      rewrite Hnil. reflexivity. }
    assert (Hpos : (1 <= active I1)%nat).
    { destruct (active I1) eqn:Ea; [|lia]. exfalso.
      pose proof (all_deactivated_sum _ Hbin Ea) as Hle.
      fold (trial_power (I_u st) w g) in Hle. fold power in Hle.
      unfold total_power in Hsum. lra. }
    split; [reflexivity|]. split.
    + unfold I1. rewrite deactivate_length; auto.
      unfold power. rewrite trial_power_length; congruence.
    + split; [apply deactivate_binary; assumption | lia].
Qed.

(** How the loop ends when started on an indicator with an active agent:
    through [break], on a non-negative allocation that sums to the
    budget, after at most as many iterations as agents were active; it
    runs out of fuel only when given less fuel than active agents. *)
Lemma elimination_loop (fuel : nat) :
  forall (iters : nat) (st : bt_state),
    length (I_u st) = length w -> binary (I_u st) ->
    (1 <= active (I_u st))%nat ->
    (while_loop fuel backtracking_cond (backtracking_body w g) iters st
     = OutOfFuel /\ (fuel < active (I_u st))%nat)
    \/
    exists (j : nat) (I' : tensor),
      while_loop fuel backtracking_cond (backtracking_body w g) iters st
      = Returned ((iters + j)%nat,
                  Broke {| I_u := I';
                           allocated_power := Some (trial_power I' w g) |})
      /\ (1 <= j <= active (I_u st))%nat /\ (j <= fuel)%nat
      /\ length I' = length w /\ binary I' /\ (1 <= active I')%nat
      /\ nonneg (trial_power I' w g)
      /\ tsum (trial_power I' w g) == total_power.
Proof.
  induction fuel as [|fuel IH]; intros iters st HlenI Hbin Hact.
  - left. simpl. split; [reflexivity | lia].
  - assert (Hcond : backtracking_cond st = true)
      by (apply (cond_active Hbin); exact Hact).
    simpl. rewrite Hcond.
    destruct (elimination_step st HlenI Hbin Hact)
      as (Hsum & [(Hbody & Hnn) | (Hbody & Hlen1 & Hbin1 & Hact1)]);
      rewrite Hbody; simpl.
    + right. exists 1%nat, (I_u st).
      rewrite Nat.add_1_r. split; [reflexivity|].
      repeat split; auto; lia.
    + destruct (IH (S iters)
                  {| I_u := deactivate (I_u st) (trial_power (I_u st) w g);
                     allocated_power := Some (trial_power (I_u st) w g) |}
                  Hlen1 Hbin1 (proj1 Hact1))
        as [[Hout Hfuel] | (j & I' & Hrun & Hj & Hjf & Hrest)].
      * left. simpl in Hfuel. split; [exact Hout | lia].
      * right. exists (S j), I'. simpl in Hj.
        rewrite Nat.add_succ_r. split; [exact Hrun|].
        split; [lia|]. split; [lia|]. exact Hrest.
Qed.

Lemma ones_binary (n : nat) : binary (ones n).
Proof. induction n; simpl; constructor; auto. Qed.

Lemma ones_active (n : nat) : active (ones n) = n.
Proof.
  induction n; [reflexivity|]. unfold ones in *; simpl repeat.
  rewrite active_cons, IHn. reflexivity.
Qed.

(** The loop of [waterfilling_backtracking] on a valid input. *)
Lemma backtracking_while_valid (fuel : nat) :
  (backtracking_while fuel w g = OutOfFuel /\ (fuel < length w)%nat)
  \/
  exists (n : nat) (I' : tensor),
    backtracking_while fuel w g
    = Returned (n, Broke {| I_u := I';
                            allocated_power := Some (trial_power I' w g) |})
    /\ (1 <= n <= length w)%nat /\ (n <= fuel)%nat
    /\ length I' = length w /\ binary I' /\ (1 <= active I')%nat
    /\ nonneg (trial_power I' w g)
    /\ tsum (trial_power I' w g) == total_power.
Proof.
  unfold backtracking_while, backtracking_init.
  destruct (elimination_loop fuel 0
              {| I_u := ones (length w); allocated_power := None |})
    as [[Hout Hfuel] | (j & I' & Hrun & Hj & Hrest)]; simpl.
  - apply repeat_length.
  - apply ones_binary.
  - rewrite ones_active. destruct Hvalid; assumption.
  - left. simpl in Hfuel. rewrite ones_active in Hfuel. auto.
  - right. exists j, I'. simpl in Hj. rewrite ones_active in Hj.
    split; [exact Hrun|]. split; [exact Hj|]. exact Hrest.
Qed.

End EliminationLoop.

(** * The claims *)

Section BacktrackingClaims.

Local Open Scope Q_scope.


(** In exact arithmetic, on N >= 1 agents with positive weights and
    gains, [waterfilling_backtracking] returns an allocation whose sum is
    exactly the budget [total_power] = 1, and the loop is left with an
    agent still active. *)
Lemma exact_backtracking_exhausts_budget (w g : tensor) (fuel : nat) :
  valid_input w g -> (length w <= fuel)%nat ->
  exists (p : tensor),
    waterfilling_backtracking fuel w g = Returned p
    /\ length p = length w
    /\ tsum p == total_power
    /\ exists (n : nat) (st : bt_state),
         backtracking_while fuel w g = Returned (n, Broke st)
         /\ allocated_power st = Some p
         /\ 0 < tsum (I_u st).
Proof.
  intros Hvalid Hfuel.
  destruct (backtracking_while_valid Hvalid fuel)
    as [[_ Hlt] | (n & I' & Hrun & _ & _ & HlenI & Hbin & Hact & _ & Hsum)];
    [lia|].
  exists (trial_power I' w g). unfold waterfilling_backtracking.
  rewrite Hrun. simpl. split; [reflexivity|]. split.
  - apply trial_power_length; [exact HlenI | apply Hvalid].
  - split; [exact Hsum|]. eexists; eexists. split; [reflexivity|].
    split; [reflexivity|]. simpl.
    apply Qlt_bool_iff. now apply cond_active.
Qed.



(** In exact arithmetic, on a valid input, the active set never becomes
    empty: an iteration that goes on leaves an agent active, the loop is
    never left through its condition [torch.sum(I_u) > 0], and with fuel
    for N iterations it is left through [break] with an agent still
    active. *)
Lemma exact_backtracking_active_set_never_empty (w g : tensor) :
  valid_input w g ->
  (forall st st' : bt_state,
      length (I_u st) = length w -> binary (I_u st) ->
      backtracking_cond st = true ->
      backtracking_body w g st = Returned (Next st') ->
      length (I_u st') = length w /\ binary (I_u st')
      /\ backtracking_cond st' = true)
  /\
  (forall fuel n st,
      backtracking_while fuel w g <> Returned (n, CondFalse st))
  /\
  (forall fuel : nat,
      (length w <= fuel)%nat ->
      exists n st, backtracking_while fuel w g = Returned (n, Broke st)
                   /\ (1 <= active (I_u st))%nat
                   /\ backtracking_cond st = true).
Proof.
  intros Hvalid. split; [|split].
  - intros st st' HlenI Hbin Hcond Hbody.
    assert (Hact : (1 <= active (I_u st))%nat)
      by (apply (cond_active Hbin); exact Hcond).
    destruct (elimination_step Hvalid st HlenI Hbin Hact)
      as (_ & [(Hbody' & _) | (Hbody' & Hlen1 & Hbin1 & Hact1)]);
      rewrite Hbody' in Hbody; inversion Hbody; subst; simpl.
    split; [assumption|]. split; [assumption|].
    unfold backtracking_cond; simpl. apply (cond_active Hbin1). lia.
  - intros fuel n st Hrun.
    destruct (backtracking_while_valid Hvalid fuel)
      as [[Hout _] | (n' & I' & Hrun' & _)]; congruence.
  - intros fuel Hfuel.
    destruct (backtracking_while_valid Hvalid fuel)
      as [[_ Hlt] | (n & I' & Hrun & _ & _ & _ & Hbin & Hact & _)]; [lia|].
    eexists; eexists. split; [exact Hrun|]. simpl. split; [exact Hact|].
    unfold backtracking_cond; simpl. now apply cond_active.
Qed.

End BacktrackingClaims.

Section BisectionClaims.

Local Open Scope Q_scope.

(** C3.  The claim fails at weights [1], gains [1], tolerance 1e-6:
    the loop of [waterfilling_bisection] is left by the [return] of its
    first iteration, with the allocation [0.05] of the first midpoint
    1.05, while the bracket that this very iteration computed,
    [1.05, 2.1], is still wider than the tolerance; the allocation uses
    a twentieth of the budget. *)
Theorem bisection_returns_before_convergence :
  exists p : tensor,
    waterfilling_bisection 100 [1] [1] (1 # 1000000) = Returned (Some p)
    /\ bisection_while 100 [1] [1] (1 # 1000000)
       = Returned (1%nat, ReturnedFrom p)
    /\ Forall2 Qeq p [1 # 20]
    /\ bisection_mid (bisection_init [1] [1]) == 21 # 20
    /\ bisection_cond (1 # 1000000)
         (bisection_update (bisection_init [1] [1])
            (bisection_mid (bisection_init [1] [1])) (tsum p)) = true
    /\ tsum p == (1 # 20) * total_power.
Proof.
  eexists. split; [vm_compute; reflexivity|].
  split; [reflexivity|]. split; [repeat constructor; reflexivity|].
  split; [reflexivity|]. split; reflexivity.
Qed.

(** C4.  The claim fails at weights [1], gains [1]: the backtracking
    solver returns [1], the bisection solver with tolerance 1e-9 returns
    the allocation [0.05] of its first midpoint, and the two differ by
    0.95, which is not below 1e-4. *)
Theorem solvers_disagree :
  exists p q : Q,
    waterfilling_backtracking 1 [1] [1] = Returned [p]
    /\ waterfilling_bisection 1 [1] [1] (1 # 1000000000) = Returned (Some [q])
    /\ Qabs (p - q) == 19 # 20
    /\ ~ Qabs (p - q) < 1 # 10000.
Proof.
  eexists; eexists. split; [vm_compute; reflexivity|].
  split; [vm_compute; reflexivity|]. split; [reflexivity|].
  vm_compute. discriminate.
Qed.

End BisectionClaims.

(** ** The evaluator *)

Section EvaluatorClaims.

Local Open Scope R_scope.

Lemma rsum_weighted_rate (weights gains allocation : list R) :
  length weights = length gains -> length gains = length allocation ->
  rsum (zip_with Rmult weights
          (map (fun s => log2 (1 + s)) (zip_with Rmult gains allocation)))
  = weighted_sum_rate weights gains allocation.
Proof.
  revert gains allocation.
  induction weights as [|w weights IH]; intros [|g gains] [|p allocation] H1 H2;
    simpl in *; try discriminate; try reflexivity.
  injection H1 as H1. injection H2 as H2.
  rewrite (IH gains allocation H1 H2). reflexivity.
Qed.



End EvaluatorClaims.

(** ** Inputs outside the preconditions *)

Section UncheckedInputs.

Local Open Scope Q_scope.

Lemma bind_raised (A B : Type) (m : outcome A) (k : A -> outcome B) exc :
  bind m k = Raised exc ->
  m = Raised exc \/ exists a, m = Returned a /\ k a = Raised exc.
Proof.
  destruct m as [a|e|]; simpl; intros H.
  - right. exists a. auto.
  - left. inversion H. reflexivity.
  - discriminate.
Qed.

Lemma compute_weighted_rate_raises (gains weights allocation : list R) exc :
  compute_weighted_rate gains weights allocation = Raised exc ->
  exc = "RuntimeError"%string.
Proof.
  unfold compute_weighted_rate. intros H.
  repeat match type of H with
         | bind (broadcast _ _ _) _ = Raised _ =>
             apply bind_raised in H;
             destruct H as [H | (? & _ & H)];
             [exact (broadcast_raises _ _ _ H)|]
         end.
  discriminate.
Qed.

End UncheckedInputs.

Section ValidationClaims.

(** C8, as stated, fails: an input outside the preconditions is computed
    on like any other, and a value comes back.  A negative weight, a
    negative gain and two sequences of different lengths given to the
    solvers, and a negative allocation given to the evaluator; the
    solvers in exact arithmetic and in float32. *)
Lemma invalid_inputs_return_values :
  waterfilling_backtracking 2 [(-1 # 1)%Q] [1%Q] = Returned [1%Q]
  /\ (exists q : Q,
         waterfilling_bisection 1 [1%Q] [(-1 # 1)%Q] (1 # 1000000)%Q
         = Returned (Some [q])
         /\ (q == 21 # 20)%Q)
  /\ (exists p q : Q,
         waterfilling_backtracking 3 [1%Q; 1%Q] [1%Q] = Returned [p; q]
         /\ (p == 1 # 2)%Q /\ (q == 1 # 2)%Q)
  /\ compute_weighted_rate [1%R] [1%R] [(- (1 / 2))%R] = Returned (-1)%R
  /\ F32.waterfilling_backtracking 2 [F32.of_Z (-1)] [F32.of_Z 1]
     = Returned [F32.one]
  /\ F32.waterfilling_bisection 1 [F32.of_Z 1] [F32.of_Z (-1)]
       (F32.double 1 1000000)
     = Returned (Some [F32.of_decimal 105 100])
  /\ F32.waterfilling_backtracking 3 [F32.of_Z 1; F32.of_Z 1] [F32.of_Z 1]
     = Returned [F32.of_decimal 1 2; F32.of_decimal 1 2].
Proof.
  split; [vm_compute; reflexivity|].
  split; [eexists; split; [vm_compute; reflexivity | reflexivity]|].
  split; [eexists; eexists; split;
          [vm_compute; reflexivity | split; reflexivity]|].
  split; [|repeat split; vm_compute; reflexivity].
  unfold compute_weighted_rate. simpl. f_equal.
  unfold log2, Rlog.
  replace (1 + 1 * - (1 / 2))%R with (/ 2)%R by lra.
  rewrite ln_Rinv by lra.
  assert (ln 2 <> 0)%R by (pose proof ln_lt_2; lra).
  field. assumption.
Qed.

End ValidationClaims.

(** * Further properties of the code *)

(** ** Lengths that do not broadcast *)

Section IncompatibleLengths.

Local Open Scope Q_scope.




End IncompatibleLengths.

(** ** The weighted sum rate of an allocation *)

Section RateFacts.

Local Open Scope R_scope.

Lemma compute_weighted_rate_same_length (weights gains allocation : list R) :
  length weights = length gains -> length gains = length allocation ->
  compute_weighted_rate gains weights allocation
  = Returned (weighted_sum_rate weights gains allocation).
Proof.
  intros H1 H2. unfold compute_weighted_rate.
  rewrite (broadcast_same_length Rmult gains allocation H2). simpl.
  rewrite broadcast_same_length
    by (rewrite length_map, zip_with_length; congruence).
  simpl. now rewrite rsum_weighted_rate.
Qed.








End RateFacts.

(** ** The graph of a sample *)

Section SampleFacts.

Local Open Scope Q_scope.

Lemma edge_pairs_In (n i j : nat) :
  In (i, j) (edge_pairs n) <-> (i < n /\ j < n /\ i <> j)%nat.
Proof.
  unfold edge_pairs. rewrite in_flat_map. split.
  - intros (i' & Hi & Hin). apply in_map_iff in Hin.
    destruct Hin as (j' & Heq & Hj). injection Heq as -> ->.
    apply filter_In in Hj. destruct Hj as [Hj Hne].
    apply in_seq in Hi. apply in_seq in Hj.
    apply negb_true_iff, Nat.eqb_neq in Hne. lia.
  - intros (Hi & Hj & Hne). exists i. split; [apply in_seq; lia|].
    apply in_map_iff. exists j. split; [reflexivity|].
    apply filter_In. split; [apply in_seq; lia|].
    apply negb_true_iff, Nat.eqb_neq. exact Hne.
Qed.

Lemma NoDup_flat_map_pairs (f : nat -> list nat) (l : list nat) :
  NoDup l -> (forall i, NoDup (f i)) ->
  NoDup (flat_map (fun i => map (fun j => (i, j)) (f i)) l).
Proof.
  intros Hl Hf. induction Hl as [|i l Hi Hl IH]; simpl; [constructor|].
  apply NoDup_app.
  - apply NoDup_map_NoDup_ForallPairs; [|apply Hf].
    intros x y _ _ H. now injection H.
  - exact IH.
  - intros [a b] Ha Hb. apply in_map_iff in Ha.
    destruct Ha as (j & Heq & _). injection Heq as <- <-.
    apply in_flat_map in Hb. destruct Hb as (i' & Hi' & Hb).
    apply in_map_iff in Hb. destruct Hb as (j' & Heq & _).
    injection Heq as -> _. contradiction.
Qed.

Lemma filter_other_length (i len start : nat) :
  length (filter (fun j => negb (i =? j)%nat) (seq start len))
  = if ((start <=? i) && (i <? start + len))%nat%bool
    then (len - 1)%nat else len.
Proof.
  revert start; induction len as [|len IH]; intros start; simpl.
  - destruct (start <=? i)%nat, (i <? start + 0)%nat; reflexivity.
  - rewrite Nat.sub_0_r.
    destruct (Nat.eqb_spec i start) as [->|Hne]; simpl; rewrite IH.
    + assert (E1 : (S start <=? start)%nat = false)
        by (apply Nat.leb_gt; lia).
      rewrite E1, Nat.leb_refl. simpl.
      assert (E2 : (start <? start + S len)%nat = true)
        by (apply Nat.ltb_lt; lia).
      rewrite E2. reflexivity.
    + destruct (start <=? i)%nat eqn:E1, (S start <=? i)%nat eqn:E1';
        destruct (i <? start + S len)%nat eqn:E2,
                 (i <? S start + len)%nat eqn:E2'; simpl;
        repeat match goal with
               | H : (_ <=? _)%nat = true |- _ => apply Nat.leb_le in H
               | H : (_ <=? _)%nat = false |- _ => apply Nat.leb_gt in H
               | H : (_ <? _)%nat = true |- _ => apply Nat.ltb_lt in H
               | H : (_ <? _)%nat = false |- _ => apply Nat.ltb_ge in H
               end; lia.
Qed.

Lemma list_sum_constant (c : nat) (l : list nat) (f : nat -> nat) :
  (forall x, In x l -> f x = c) -> list_sum (map f l) = (length l * c)%nat.
Proof.
  induction l as [|x l IH]; intros H; simpl; [reflexivity|].
  rewrite (H x (or_introl eq_refl)), IH; [reflexivity|].
  intros y Hy. apply H. now right.
Qed.

Lemma edge_pairs_length (n : nat) :
  length (edge_pairs n) = (n * (n - 1))%nat.
Proof.
  unfold edge_pairs. rewrite length_flat_map.
  rewrite (@list_sum_constant (n - 1)%nat); [now rewrite length_seq|].
  intros i Hi. apply in_seq in Hi. rewrite length_map, filter_other_length.
  simpl. assert (E : (i <? n)%nat = true) by (apply Nat.ltb_lt; lia).
  rewrite E. reflexivity.
Qed.

(** X12.  The edges of a sample are the ordered pairs of distinct users,
    each once: the complete directed graph without self-loops, with
    n * (n - 1) edges and with the reverse of every edge. *)
Theorem edge_pairs_complete_graph (n : nat) :
  (forall i j : nat,
      In (i, j) (edge_pairs n) <-> (i < n /\ j < n /\ i <> j)%nat)
  /\ NoDup (edge_pairs n)
  /\ length (edge_pairs n) = (n * (n - 1))%nat
  /\ (forall i j : nat, In (i, j) (edge_pairs n) -> In (j, i) (edge_pairs n)).
Proof.
  split; [apply edge_pairs_In|]. split; [|split].
  - unfold edge_pairs.
    apply (NoDup_flat_map_pairs
             (fun i => filter (fun j => negb (i =? j)%nat) (seq 0 n))).
    + apply seq_NoDup.
    + intros i. apply NoDup_filter, seq_NoDup.
  - apply edge_pairs_length.
  - intros i j H. apply edge_pairs_In in H. apply edge_pairs_In. lia.
Qed.

End SampleFacts.


(** * The float32 solvers *)

(** ** One iteration of the elimination loop *)

Section FloatStep.

(** An inactive agent's trial allocation is [0 * x]: a zero or nan,
    never below zero. *)
Lemma float_mul_zero_not_negative (t : F32.float) :
  F32.ltb (F32.mul F32.zero t) F32.zero = false.
Proof. destruct t as [s|s| |s m e]; try destruct s; reflexivity. Qed.

Lemma float_active_cons (i : F32.float) (I : F32.tensor) :
  F32.active (i :: I)
  = ((if F32.ltb F32.zero i then 1 else 0) + F32.active I)%nat.
Proof. unfold F32.active; simpl. destruct (F32.ltb F32.zero i); reflexivity. Qed.

Lemma float_ones_binary (n : nat) : F32.binary (F32.ones n).
Proof. induction n; simpl; constructor; auto. Qed.

Lemma float_ones_active (n : nat) : F32.active (F32.ones n) = n.
Proof.
  induction n; [reflexivity|]. unfold F32.ones in *; simpl repeat.
  rewrite float_active_cons, IHn. reflexivity.
Qed.

Lemma float_deactivate_length (I power : F32.tensor) :
  length I = length power -> length (F32.deactivate I power) = length I.
Proof.
  intros H. unfold F32.deactivate. apply zip_with_length.
  rewrite length_map. exact H.
Qed.

Lemma float_deactivate_binary (I power : F32.tensor) :
  F32.binary I -> F32.binary (F32.deactivate I power).
Proof.
  intros HI; revert power.
  induction HI as [|i I Hi _ IH]; intros [|p power]; simpl;
    try constructor; auto.
  - destruct (F32.ltb p F32.zero); auto.
  - apply IH.
Qed.

Lemma float_active_deactivate_le (I trial : F32.tensor) :
  F32.binary I ->
  (F32.active (F32.deactivate I (zip_with F32.mul I trial)) <= F32.active I)%nat.
Proof.
  intros HI; revert trial.
  induction HI as [|i I Hi _ IH]; intros [|t trial]; simpl; auto.
  - apply Nat.le_0_l.
  - unfold F32.deactivate in *; simpl. rewrite !float_active_cons.
    specialize (IH trial).
    destruct (F32.ltb (F32.mul i t) F32.zero);
      [change (F32.ltb F32.zero F32.zero) with false|];
      destruct (F32.ltb F32.zero i); lia.
Qed.

Lemma float_active_deactivate_lt (I trial : F32.tensor) (k : nat) :
  F32.binary I ->
  where_from k (map (fun p => F32.ltb p F32.zero) (zip_with F32.mul I trial))
  <> [] ->
  (F32.active (F32.deactivate I (zip_with F32.mul I trial)) < F32.active I)%nat.
Proof.
  intros HI; revert trial k.
  induction HI as [|i I Hi HI IH]; intros [|t trial] k; simpl;
    try congruence.
  unfold F32.deactivate in *; simpl. rewrite !float_active_cons.
  destruct (F32.ltb (F32.mul i t) F32.zero) eqn:E.
  - intros _. change (F32.ltb F32.zero F32.zero) with false.
    pose proof (float_active_deactivate_le trial HI) as Hle.
    unfold F32.deactivate in Hle.
    destruct Hi as [Hi|Hi]; subst.
    + rewrite float_mul_zero_not_negative in E. discriminate.
    + change (F32.ltb F32.zero F32.one) with true. cbv iota. lia.
  - intros H. specialize (IH trial (S k) H).
    destruct (F32.ltb F32.zero i); lia.
Qed.

Lemma float_no_negative (power : F32.tensor) :
  torch_where (map (fun p => F32.ltb p F32.zero) power) = [] ->
  F32.no_negative power.
Proof.
  unfold torch_where. rewrite where_from_nil. intros H.
  induction power as [|p power IH]; simpl in *; constructor;
    inversion H; subst.
  - assumption.
  - now apply IH.
Qed.

Lemma float_some_negative (power : F32.tensor) (k : nat) :
  where_from k (map (fun p => F32.ltb p F32.zero) power) <> [] ->
  F32.some_negative power.
Proof.
  revert k. induction power as [|p power IH]; intros k; simpl;
    [congruence|].
  destruct (F32.ltb p F32.zero) eqn:E.
  - intros _. now constructor.
  - intros H. apply Exists_cons_tl. now apply (IH (S k)).
Qed.

Lemma float_trial_power_length (I w g : F32.tensor) :
  length I = length w -> length w = length g ->
  length (F32.trial_power I w g) = length w.
Proof.
  intros H1 H2. unfold F32.trial_power.
  rewrite zip_with_length; [congruence|].
  rewrite zip_with_length; rewrite !length_map; congruence.
Qed.

(** The loop body on tensors of one length. *)
Lemma float_backtracking_body_same_length
  (w g : F32.tensor) (st : F32.bt_state) :
  length (F32.I_u st) = length w -> length w = length g ->
  F32.backtracking_body w g st =
  let power := F32.trial_power (F32.I_u st) w g in
  if (length (torch_where (map (fun p => F32.ltb p F32.zero) power)) =? 0)%nat
  then Returned (Break {| F32.I_u := F32.I_u st;
                          F32.allocated_power := Some power |})
  else Returned (Next {| F32.I_u := F32.deactivate (F32.I_u st) power;
                         F32.allocated_power := Some power |}).
Proof.
  intros H1 H2. unfold F32.backtracking_body.
  rewrite broadcast_same_length by (rewrite length_map; congruence).
  cbn [bind]. rewrite broadcast_same_length by assumption. cbn [bind].
  rewrite broadcast_same_length by (rewrite !length_map; assumption).
  cbn [bind].
  rewrite broadcast_same_length
    by (rewrite zip_with_length; rewrite !length_map; congruence).
  cbn [bind]. fold (F32.water_level (F32.I_u st) w g).
  fold (F32.trial_power (F32.I_u st) w g).
  destruct (length _ =? 0)%nat; [reflexivity|].
  rewrite index_put_where
    by (rewrite length_map, float_trial_power_length; congruence).
  reflexivity.
Qed.

Lemma float_tsum_zeros (I : F32.tensor) :
  Forall (fun i => i = F32.zero) I -> F32.tsum I = F32.zero.
Proof.
  unfold F32.tsum. induction 1 as [|i I Hi _ IH]; simpl; [reflexivity|].
  subst i. exact IH.
Qed.

(** The loop test can only hold while an agent is active. *)
Lemma float_cond_active (st : F32.bt_state) :
  F32.binary (F32.I_u st) -> F32.backtracking_cond st = true ->
  (1 <= F32.active (F32.I_u st))%nat.
Proof.
  intros Hbin Hcond.
  destruct (F32.active (F32.I_u st)) eqn:Ea; [|lia]. exfalso.
  assert (Hz : Forall (fun i => i = F32.zero) (F32.I_u st)).
  { clear Hcond. induction Hbin as [|i I [Hi|Hi] _ IH]; constructor; subst;
      rewrite float_active_cons in Ea.
    - reflexivity.
    - apply IH. change (F32.ltb F32.zero F32.zero) with false in Ea. exact Ea.
    - change (F32.ltb F32.zero F32.one) with true in Ea. discriminate.
    - change (F32.ltb F32.zero F32.one) with true in Ea. discriminate. }
  unfold F32.backtracking_cond in Hcond.
  rewrite (float_tsum_zeros Hz) in Hcond. discriminate.
Qed.

End FloatStep.

(** ** Sums of indicators *)

Section FloatSum.

Local Open Scope Z_scope.

Lemma digits2_pos_bounds (m : BinNums.positive) :
  2 ^ (Z.pos (digits2_pos m) - 1) <= Z.pos m < 2 ^ Z.pos (digits2_pos m).
Proof.
  induction m as [m IH|m IH|]; simpl digits2_pos.
  - rewrite Pos2Z.inj_succ.
    replace (Z.succ (Z.pos (digits2_pos m)) - 1) with (Z.succ (Z.pos (digits2_pos m) - 1)) by lia.
    rewrite !Z.pow_succ_r by lia. lia.
  - rewrite Pos2Z.inj_succ.
    replace (Z.succ (Z.pos (digits2_pos m)) - 1) with (Z.succ (Z.pos (digits2_pos m) - 1)) by lia.
    rewrite !Z.pow_succ_r by lia. lia.
  - simpl. lia.
Qed.

Lemma shr_1_m (mrs : shr_record) :
  0 <= shr_m mrs -> shr_m (shr_1 mrs) = shr_m mrs / 2.
Proof.
  destruct mrs as [m r s]. simpl. intros Hm.
  rewrite <- Z.div2_div.
  destruct m as [|[p|p|]|p]; try reflexivity; lia.
Qed.

Lemma iter_shr_1_m (p : BinNums.positive) :
  forall mrs : shr_record,
    0 <= shr_m mrs ->
    shr_m (iter_pos shr_1 p mrs) = shr_m mrs / 2 ^ Z.pos p.
Proof.
  induction p as [p IH|p IH|]; intros mrs Hm; simpl iter_pos.
  - assert (H1 : 0 <= shr_m (shr_1 mrs)) by (rewrite shr_1_m by lia; apply Z.div_pos; lia).
    assert (H2 : 0 <= shr_m (iter_pos shr_1 p (shr_1 mrs))) by (rewrite IH by lia; apply Z.div_pos; lia).
    rewrite IH by lia. rewrite IH by lia. rewrite shr_1_m by lia.
    rewrite !Z.div_div by lia.
    f_equal.
    replace (Z.pos p~1) with (1 + (Z.pos p + Z.pos p)) by lia.
    rewrite !Z.pow_add_r by lia. rewrite Z.pow_1_r. reflexivity.
  - assert (H2 : 0 <= shr_m (iter_pos shr_1 p mrs)) by (rewrite IH by lia; apply Z.div_pos; lia).
    rewrite IH by lia. rewrite IH by lia.
    rewrite !Z.div_div by lia. f_equal.
    replace (Z.pos p~0) with (Z.pos p + Z.pos p) by lia.
    rewrite Z.pow_add_r by lia. reflexivity.
  - rewrite shr_1_m by lia. reflexivity.
Qed.

Lemma digits2_pos_unique (m : BinNums.positive) (d : Z) :
  2 ^ (d - 1) <= Z.pos m < 2 ^ d -> 1 <= d -> Z.pos (digits2_pos m) = d.
Proof.
  intros [H1 H2] Hd. pose proof (digits2_pos_bounds m) as [B1 B2].
  assert (d - 1 < Z.pos (digits2_pos m)).
  { apply (Z.pow_lt_mono_r_iff 2); try lia. }
  assert (Z.pos (digits2_pos m) - 1 < d).
  { apply (Z.pow_lt_mono_r_iff 2); try lia. }
  lia.
Qed.

Lemma float_round_at_least_one (M : BinNums.positive) :
  25 <= Z.pos (digits2_pos M) ->
  F32.at_least_one (binary_round_aux 24 128 false (Z.pos M) (-23) loc_Exact).
Proof.
  intros HD. set (D := Z.pos (digits2_pos M)) in *.
  pose proof (digits2_pos_bounds M) as [B1 B2]. fold D in B1, B2.
  assert (Hp : exists p, D - 24 = Z.pos p).
  { destruct (D - 24) as [|p|p] eqn:Ep; try lia. now exists p. }
  destruct Hp as [p Ep].
  set (mrs := iter_pos shr_1 p {| shr_m := Z.pos M; shr_r := false; shr_s := false |}).
  assert (E1 : shr_fexp 24 128 (Z.pos M) (-23) loc_Exact = (mrs, -23 + Z.pos p)).
  { unfold shr_fexp. simpl Zdigits2. fold D.
    replace (fexp 24 128 (D + -23) - -23) with (Z.pos p)
      by (unfold fexp, emin; lia).
    reflexivity. }
  assert (Hm1 : shr_m mrs = Z.pos M / 2 ^ Z.pos p).
  { unfold mrs. rewrite iter_shr_1_m; simpl; [reflexivity | lia]. }
  assert (Hlo : 2 ^ 23 <= shr_m mrs).
  { rewrite Hm1. apply Z.div_le_lower_bound; [lia|].
    rewrite <- Z.pow_add_r by lia.
    replace (Z.pos p + 23) with (D - 1) by lia. exact B1. }
  assert (Hhi : shr_m mrs < 2 ^ 24).
  { rewrite Hm1. apply Z.div_lt_upper_bound; [lia|].
    rewrite <- Z.pow_add_r by lia.
    replace (Z.pos p + 24) with D by lia. exact B2. }
  set (m2 := round_nearest_even (shr_m mrs) (loc_of_shr_record mrs)).
  assert (Hm2 : m2 = shr_m mrs \/ m2 = shr_m mrs + 1).
  { unfold m2, round_nearest_even.
    destruct (loc_of_shr_record mrs) as [|[| |]]; auto.
    destruct (Z.even (shr_m mrs)); auto. }
  unfold binary_round_aux. rewrite E1. fold m2.
  set (e1 := -23 + Z.pos p).
  assert (He1 : -22 <= e1) by (unfold e1; lia).
  destruct (Z_lt_le_dec m2 (2 ^ 24)) as [Hlt | Hge].
  - (* no carry: 24 digits *)
    destruct m2 as [|q|q] eqn:Eq; try lia.
    assert (Hd : Z.pos (digits2_pos q) = 24)
      by (apply digits2_pos_unique; lia).
    assert (E2 : shr_fexp 24 128 (Z.pos q) e1 loc_Exact
                 = ({| shr_m := Z.pos q; shr_r := false; shr_s := false |}, e1)).
    { unfold shr_fexp. simpl Zdigits2. rewrite Hd.
      replace (fexp 24 128 (24 + e1) - e1) with 0
        by (unfold fexp, emin; lia).
      reflexivity. }
    rewrite E2. simpl shr_m.
    destruct (e1 <=? 128 - 24); [right; exists q, e1; repeat split; lia | left; reflexivity].
  - (* carry: m2 = 2^24 *)
    assert (Em2 : m2 = 2 ^ 24) by lia.
    rewrite Em2.
    assert (E2 : shr_fexp 24 128 (2 ^ 24) e1 loc_Exact
                 = ({| shr_m := 2 ^ 23; shr_r := false; shr_s := false |}, e1 + 1)).
    { unfold shr_fexp. 
      replace (fexp 24 128 (Zdigits2 (2 ^ 24) + e1) - e1) with 1
        by (change (Zdigits2 (2 ^ 24)) with 25; unfold fexp, emin; lia).
      reflexivity. }
    rewrite E2. simpl shr_m. change (2 ^ 23) with (Z.pos 8388608).
    cbv iota beta.
    destruct (e1 + 1 <=? 128 - 24); [right; exists 8388608%positive, (e1 + 1); repeat split; lia | left; reflexivity].
Qed.

Lemma shl_align_ge (m : BinNums.positive) (e e' : Z) :
  Z.pos m <= Z.pos (fst (shl_align m e e')).
Proof.
  unfold shl_align. destruct (e' - e) as [|d|d]; simpl; try lia.
  change (Pos.iter xO m d) with (shift_pos d m).
  rewrite shift_pos_correct.
  assert (0 < Zpower_pos 2 d) by (change (Zpower_pos 2 d) with (2 ^ Z.pos d); apply Z.pow_pos_nonneg; lia). nia.
Qed.

Lemma float_add_one (s : spec_float) :
  F32.at_least_one s ->
  F32.at_least_one (SFadd 24 128 s (S754_finite false 8388608 (-23))).
Proof.
  intros [-> | (m & e & -> & Hm & He)]; [left; reflexivity|].
  unfold SFadd.
  replace (Z.min e (-23)) with (-23) by lia.
  change (fst (shl_align 8388608 (-23) (-23))) with 8388608%positive.
  pose proof (shl_align_ge m e (-23)) as Ha.
  set (a := fst (shl_align m e (-23))) in *.
  simpl cond_Zopp. simpl Z.add.
  unfold binary_normalize, binary_round.
  set (M := (a + 8388608)%positive).
  assert (HM : 2 ^ 24 <= Z.pos M) by (unfold M; lia).
  pose proof (digits2_pos_bounds M) as [B1 B2].
  assert (HD : 25 <= Z.pos (digits2_pos M)).
  { assert (24 < Z.pos (digits2_pos M)); [|lia].
    apply (Z.pow_lt_mono_r_iff 2); lia. }
  assert (E : shl_align M (-23) (fexp 24 128 (Z.pos (digits2_pos M) + -23)) = (M, -23)).
  { unfold shl_align.
    destruct (fexp 24 128 (Z.pos (digits2_pos M) + -23) - -23) eqn:Ef;
      try reflexivity.
    unfold fexp, emin in Ef. lia. }
  rewrite E. now apply float_round_at_least_one.
Qed.

Lemma float_at_least_one_positive (s : F32.float) :
  F32.at_least_one s -> F32.ltb F32.zero s = true.
Proof. intros [-> | (m & e & -> & _)]; reflexivity. Qed.

Lemma float_add_zero (s : F32.float) :
  F32.at_least_one s -> F32.add s F32.zero = s.
Proof. intros [-> | (m & e & -> & _)]; reflexivity. Qed.

Lemma float_one_at_least_one : F32.at_least_one F32.one.
Proof.
  right. exists 8388608%positive, (-23). repeat split; try reflexivity; lia.
Qed.

Lemma float_fold_at_least_one (I : F32.tensor) :
  F32.binary I ->
  forall s, F32.at_least_one s -> F32.at_least_one (fold_left F32.add I s).
Proof.
  induction 1 as [|i I [Hi|Hi] _ IH]; intros s Hs; simpl; [assumption| |];
    subst i; apply IH.
  - now rewrite float_add_zero.
  - now apply (float_add_one Hs).
Qed.

(** The sum of an indicator vector with an active agent is positive:
    float32 additions of 1 never leave the floats of at least 1. *)
Lemma float_active_cond (I : F32.tensor) :
  F32.binary I -> (1 <= F32.active I)%nat ->
  F32.ltb F32.zero (F32.tsum I) = true.
Proof.
  intros Hbin Hact. apply float_at_least_one_positive. unfold F32.tsum.
  induction Hbin as [|i I [Hi|Hi] Hbin IH]; subst; simpl.
  - unfold F32.active in Hact. simpl in Hact. lia.
  - rewrite float_active_cons in Hact.
    change (F32.ltb F32.zero F32.zero) with false in Hact.
    change (F32.add F32.zero F32.zero) with F32.zero. apply IH. exact Hact.
  - change (F32.add F32.zero F32.one) with F32.one.
    apply float_fold_at_least_one; [exact Hbin | exact float_one_at_least_one].
Qed.

End FloatSum.

(** ** The elimination loop in float32 *)

Section FloatLoop.

Variables w g : F32.tensor.
Hypothesis Hlen : length w = length g.

(** On tensors of one length, whatever their entries, the loop is left
    after at most as many iterations as agents are active: either at once,
    or through [break] on a trial allocation without a negative component,
    or through its condition after an iteration that found one. *)
Lemma float_elimination_loop (fuel : nat) :
  forall (iters : nat) (st : F32.bt_state),
    length (F32.I_u st) = length w -> F32.binary (F32.I_u st) ->
    (F32.active (F32.I_u st) < fuel)%nat ->
    exists (n : nat) (ex : loop_exit F32.bt_state F32.tensor),
      while_loop fuel F32.backtracking_cond (F32.backtracking_body w g)
        iters st = Returned (n, ex)
      /\ (n <= iters + F32.active (F32.I_u st))%nat
      /\ ((n = iters /\ ex = CondFalse st
           /\ F32.backtracking_cond st = false)
          \/
          ((iters < n)%nat /\
           exists (I' p : F32.tensor),
             length I' = length w /\ F32.binary I' /\ length p = length w
             /\ ((ex = Broke {| F32.I_u := I';
                                F32.allocated_power := Some p |}
                  /\ F32.ltb F32.zero (F32.tsum I') = true
                  /\ p = F32.trial_power I' w g
                  /\ F32.no_negative p)
                 \/
                 (ex = CondFalse {| F32.I_u := I';
                                    F32.allocated_power := Some p |}
                  /\ F32.ltb F32.zero (F32.tsum I') = false
                  /\ F32.some_negative p)))).
Proof.
  induction fuel as [|fuel IH]; intros iters st HlenI Hbin Hact; [lia|].
  simpl. destruct (F32.backtracking_cond st) eqn:Hcond.
  - pose proof (float_cond_active st Hbin Hcond) as Hpos.
    rewrite (float_backtracking_body_same_length w g st HlenI Hlen).
    cbv zeta.
    set (power := F32.trial_power (F32.I_u st) w g).
    assert (Hlenp : length power = length w)
      by (apply float_trial_power_length; assumption).
    destruct (length _ =? 0)%nat eqn:E; cbn [bind].
    + exists (S iters), (Broke {| F32.I_u := F32.I_u st;
                                  F32.allocated_power := Some power |}).
      split; [reflexivity|]. split; [lia|]. right. split; [lia|].
      exists (F32.I_u st), power. repeat split; auto. left.
      repeat split; auto.
      apply float_no_negative. apply Nat.eqb_eq in E.
      now apply length_zero_iff_nil.
    + apply Nat.eqb_neq in E.
      assert (Hne : where_from 0
                      (map (fun p => F32.ltb p F32.zero) power) <> []).
      { intros Hnil. apply E. unfold torch_where. rewrite Hnil. reflexivity. }
      set (I1 := F32.deactivate (F32.I_u st) power).
      assert (Hlt : (F32.active I1 < F32.active (F32.I_u st))%nat)
        by (apply (float_active_deactivate_lt _ 0 Hbin); exact Hne).
      assert (Hlen1 : length I1 = length w).
      { unfold I1. rewrite float_deactivate_length; congruence. }
      assert (Hbin1 : F32.binary I1)
        by (apply float_deactivate_binary; assumption).
      destruct (IH (S iters)
                  {| F32.I_u := I1; F32.allocated_power := Some power |}
                  Hlen1 Hbin1 ltac:(simpl; lia))
        as (n & ex & Hrun & Hn & Hcase).
      exists n, ex. split; [exact Hrun|]. simpl in Hn. split; [lia|].
      right. destruct Hcase as [(Hn' & Hex & Hc) | (Hn' & Hrest)].
      * split; [lia|]. exists I1, power. repeat split; auto.
        right. repeat split; auto.
        eapply float_some_negative; exact Hne.
      * split; [lia|]. exact Hrest.
  - exists iters, (CondFalse st). split; [reflexivity|]. split; [lia|].
    left. auto.
Qed.

(** The loop of [F32.waterfilling_backtracking]. *)
Lemma float_backtracking_while_total (fuel : nat) :
  (length w < fuel)%nat ->
  exists (n : nat) (ex : loop_exit F32.bt_state F32.tensor),
    F32.backtracking_while fuel w g = Returned (n, ex)
    /\ (n <= length w)%nat
    /\ ((n = 0%nat /\ ex = CondFalse (F32.backtracking_init w)
         /\ F32.backtracking_cond (F32.backtracking_init w) = false)
        \/
        ((1 <= n)%nat /\
         exists (I' p : F32.tensor),
           length I' = length w /\ F32.binary I' /\ length p = length w
           /\ ((ex = Broke {| F32.I_u := I';
                              F32.allocated_power := Some p |}
                /\ F32.ltb F32.zero (F32.tsum I') = true
                /\ p = F32.trial_power I' w g
                /\ F32.no_negative p)
               \/
               (ex = CondFalse {| F32.I_u := I';
                                  F32.allocated_power := Some p |}
                /\ F32.ltb F32.zero (F32.tsum I') = false
                /\ F32.some_negative p)))).
Proof.
  intros Hfuel. unfold F32.backtracking_while.
  destruct (@float_elimination_loop fuel 0%nat (F32.backtracking_init w))
    as (n & ex & Hrun & Hn & Hcase).
  - apply repeat_length.
  - apply float_ones_binary.
  - simpl. rewrite float_ones_active. exact Hfuel.
  - exists n, ex. split; [exact Hrun|]. simpl in Hn.
    rewrite float_ones_active in Hn. split; [lia|].
    destruct Hcase as [(Hn' & Hex & Hc) | (Hn' & Hrest)].
    + left. auto.
    + right. split; [lia | exact Hrest].
Qed.

End FloatLoop.

(** ** How the float32 solvers end *)

Section FloatExit.

(** The floats of a valid input, read as rationals, are a valid input of
    the exact reading. *)
Lemma float_valid_input_exact (w g : F32.tensor) :
  F32.valid_input w g -> valid_input (map F32.F2Q w) (map F32.F2Q g).
Proof.
  intros (HN & Hlen & Hw & Hg). unfold valid_input, positive.
  rewrite !length_map. repeat split; auto.
  - apply Forall_map. eapply Forall_impl; [|exact Hw].
    intros x [_ H]; exact H.
  - apply Forall_map. eapply Forall_impl; [|exact Hg].
    intros x [_ H]; exact H.
Qed.

(** On N >= 1 weights and N gains, whatever their values, the loop of
    [F32.waterfilling_backtracking] runs between 1 and N iterations and is
    left in one of two ways. *)
Lemma float_backtracking_exit (w g : F32.tensor) (fuel : nat) :
  length w = length g -> (1 <= length w)%nat -> (length w < fuel)%nat ->
  exists (n : nat) (I' p : F32.tensor),
    (1 <= n <= length w)%nat
    /\ length I' = length w /\ F32.binary I' /\ length p = length w
    /\ F32.waterfilling_backtracking fuel w g = Returned p
    /\ ((F32.backtracking_while fuel w g
         = Returned (n, Broke {| F32.I_u := I';
                                 F32.allocated_power := Some p |})
         /\ (1 <= F32.active I')%nat
         /\ p = F32.trial_power I' w g
         /\ F32.no_negative p)
        \/
        (F32.backtracking_while fuel w g
         = Returned (n, CondFalse {| F32.I_u := I';
                                     F32.allocated_power := Some p |})
         /\ F32.active I' = 0%nat
         /\ F32.some_negative p)).
Proof.
  intros Hlen HN Hfuel.
  destruct (@float_backtracking_while_total w g Hlen fuel Hfuel)
    as (n & ex & Hrun & Hn & [(_ & _ & Hc) | (Hn1 & I' & p & HlenI & Hbin
                                               & Hlenp & Hcase)]).
  - exfalso. unfold F32.backtracking_cond, F32.backtracking_init in Hc.
    simpl in Hc. rewrite float_active_cond in Hc; [discriminate| |].
    + apply float_ones_binary.
    + rewrite float_ones_active. exact HN.
  - exists n, I', p. split; [lia|]. repeat (split; [assumption|]).
    unfold F32.waterfilling_backtracking. rewrite Hrun.
    destruct Hcase as [(-> & Hc & Hp & Hnn) | (-> & Hc & Hsn)].
    + split; [reflexivity|]. left. repeat split; auto.
      apply (@float_cond_active {| F32.I_u := I';
                                   F32.allocated_power := Some p |});
        assumption.
    + split; [reflexivity|]. right. repeat split; auto.
      destruct (F32.active I') eqn:Ea; [reflexivity|].
      rewrite float_active_cond in Hc; [discriminate | assumption | lia].
Qed.

Lemma float_no_negative_some_negative (p : F32.tensor) :
  F32.no_negative p -> F32.some_negative p -> False.
Proof.
  unfold F32.no_negative, F32.some_negative. intros Hn Hs.
  apply Exists_exists in Hs. destruct Hs as (x & Hin & Hx).
  rewrite Forall_forall in Hn. rewrite (Hn x Hin) in Hx. discriminate.
Qed.

(** [torch.maximum] with 0 never compares below 0. *)
Lemma float_maximum_zero_not_negative (x : F32.float) :
  F32.ltb (F32.maximum F32.zero x) F32.zero = false.
Proof. destruct x as [[|]|[|]| |[|] m e]; reflexivity. Qed.

Lemma float_clipped_no_negative (mu : F32.float) (w g : F32.tensor) :
  F32.no_negative (F32.clipped_allocation mu w g).
Proof.
  unfold F32.no_negative, F32.clipped_allocation. revert g.
  induction w as [|x w IH]; intros [|y g]; simpl; constructor.
  - apply float_maximum_zero_not_negative.
  - apply IH.
Qed.

Lemma float_zip_maximum_zeros (t : F32.tensor) :
  zip_with F32.maximum (F32.zeros (length t)) t
  = map (fun x => F32.maximum F32.zero x) t.
Proof.
  unfold F32.zeros.
  induction t as [|x t IH]; simpl; [reflexivity | now rewrite IH].
Qed.

Lemma float_clipped_allocation_map (mu : F32.float) (w g : F32.tensor) :
  map (fun x => F32.maximum F32.zero x)
    (zip_with F32.sub (map (fun w => F32.mul w mu) w)
       (map (fun g => F32.div F32.one g) g))
  = F32.clipped_allocation mu w g.
Proof.
  unfold F32.clipped_allocation. revert g.
  induction w as [|x w IH]; intros [|y g]; simpl; try reflexivity.
  now rewrite IH.
Qed.

(** Subtracting [mu_min = 0] leaves a float32 as it is, so the loop
    test of the bisection compares the tolerance with [mu_max]. *)
Lemma float_sub_zero (x : F32.float) : F32.sub x F32.zero = x.
Proof. destruct x as [[|]|[|]| |[|] m e]; reflexivity. Qed.

Lemma float_bisection_cond_init (w g : F32.tensor) (epsilon : spec_float) :
  F32.bisection_cond epsilon (F32.bisection_init w g)
  = F32.ltb (F32.of_double epsilon) (F32.mu_max (F32.bisection_init w g)).
Proof.
  unfold F32.bisection_cond.
  change (F32.mu_min (F32.bisection_init w g)) with F32.zero.
  now rewrite float_sub_zero.
Qed.

(** [<=] one way excludes [<] the other way. *)
Lemma float_leb_not_ltb (x y : F32.float) :
  F32.leb x y = true -> F32.ltb y x = false.
Proof.
  unfold F32.leb, F32.ltb, SFleb, SFltb.
  destruct x as [[|]|[|]| |[|] mx ex], y as [[|]|[|]| |[|] my ey];
    simpl; try reflexivity; try discriminate;
    rewrite (Z.compare_antisym ex ey);
    destruct (ex ?= ey)%Z; simpl; try reflexivity; try discriminate;
    rewrite !Pos.compare_cont_spec; simpl;
    rewrite (Pos.compare_antisym mx my);
    destruct (mx ?= my)%positive; simpl; try reflexivity; discriminate.
Qed.

(** The body of the bisection loop on tensors of one length. *)
Lemma float_bisection_body_same_length (w g : F32.tensor) (st : F32.bs_state) :
  length w = length g ->
  F32.bisection_body w g (length w) st
  = Returned (Return (F32.clipped_allocation (F32.bisection_mid st) w g)).
Proof.
  intros Hlen. unfold F32.bisection_body.
  rewrite broadcast_same_length by (rewrite !length_map; exact Hlen).
  cbn [bind].
  assert (Hl : length w
               = length (zip_with F32.sub
                           (map (fun w => F32.mul w (F32.bisection_mid st)) w)
                           (map (fun g => F32.div F32.one g) g))).
  { rewrite zip_with_length by (rewrite !length_map; exact Hlen).
    now rewrite length_map. }
  rewrite Hl at 1.
  rewrite broadcast_same_length
    by (unfold F32.zeros; now rewrite repeat_length).
  cbn [bind]. rewrite float_zip_maximum_zeros.
  now rewrite float_clipped_allocation_map.
Qed.

(** The loop of [F32.waterfilling_bisection] on tensors of one length. *)
Lemma float_bisection_while_same_length
  (w g : F32.tensor) (epsilon : spec_float) (fuel : nat) :
  length w = length g ->
  F32.bisection_while (S fuel) w g epsilon
  = if F32.bisection_cond epsilon (F32.bisection_init w g)
    then Returned (1%nat,
                   ReturnedFrom
                     (F32.clipped_allocation
                        (F32.bisection_mid (F32.bisection_init w g)) w g))
    else Returned (0%nat, CondFalse (F32.bisection_init w g)).
Proof.
  intros Hlen. unfold F32.bisection_while. cbv zeta. cbn [while_loop].
  destruct (F32.bisection_cond epsilon (F32.bisection_init w g));
    [|reflexivity].
  now rewrite float_bisection_body_same_length.
Qed.

(** What the float32 solvers can raise. *)
Lemma float_backtracking_body_raises (w g : F32.tensor)
  (st : F32.bt_state) exc :
  F32.backtracking_body w g st = Raised exc ->
  exc = "RuntimeError"%string \/ exc = "IndexError"%string.
Proof.
  unfold F32.backtracking_body. intros H.
  repeat match type of H with
         | bind (broadcast _ _ _) _ = Raised _ =>
             apply bind_raised in H;
             destruct H as [H | (? & _ & H)];
             [left; exact (broadcast_raises _ _ _ H)|]
         end.
  destruct (length _ =? 0)%nat; [discriminate|].
  apply bind_raised in H. destruct H as [H | (? & _ & H)].
  - right. exact (index_put_raises _ _ _ H).
  - discriminate.
Qed.

Lemma float_waterfilling_backtracking_raises
  (fuel : nat) (w g : F32.tensor) exc :
  F32.waterfilling_backtracking fuel w g = Raised exc ->
  exc = "RuntimeError"%string \/ exc = "IndexError"%string
  \/ exc = "UnboundLocalError"%string.
Proof.
  unfold F32.waterfilling_backtracking. intros H.
  apply bind_raised in H. destruct H as [H | ((n & ex) & _ & H)].
  - destruct (string_dec exc "RuntimeError") as [E|E1]; [auto|].
    destruct (string_dec exc "IndexError") as [E|E2]; [auto|].
    exfalso. revert H. apply while_loop_raises.
    intros s Hs. apply float_backtracking_body_raises in Hs. tauto.
  - right; right. simpl in H.
    destruct ex as [st|st|v]; simpl in H; try discriminate;
      destruct (F32.allocated_power st); inversion H; reflexivity.
Qed.

Lemma float_waterfilling_bisection_raises (fuel : nat) (w g : F32.tensor)
  (epsilon : spec_float) exc :
  F32.waterfilling_bisection fuel w g epsilon = Raised exc ->
  exc = "RuntimeError"%string.
Proof.
  unfold F32.waterfilling_bisection. intros H.
  apply bind_raised in H. destruct H as [H | ((n & ex) & _ & H)].
  - destruct (string_dec exc "RuntimeError") as [E|E]; [auto|].
    exfalso. revert H. apply while_loop_raises.
    intros s Hs. unfold F32.bisection_body in Hs.
    repeat match type of Hs with
           | bind (broadcast _ _ _) _ = Raised _ =>
               apply bind_raised in Hs;
               destruct Hs as [Hs | (? & _ & Hs)];
               [exact (E (broadcast_raises _ _ _ Hs))|]
           end.
    discriminate.
  - simpl in H. destruct ex; discriminate.
Qed.

End FloatExit.

(** * The claims, in float32 *)

Section FloatClaims.

Lemma float_valid_example :
  F32.valid_input [F32.of_Z 1; F32.of_Z 1]
                  [F32.of_decimal 1 10; F32.of_Z 1000].
Proof. float_valid_input. Defined.

(** C1, as stated, fails in float32.  Weights [1.], gains [1e-8]: the
    reciprocal of the gain is 1e8, and 1 + 1e8 rounds to 1e8, so the
    trial allocation is 1e8 - 1e8 = 0.  Nothing is negative, the loop
    breaks with the agent still active, and the allocation [0.] that
    comes back sums to 0, not to the budget 1. *)
Lemma float_budget_not_exhausted :
  F32.valid_input [F32.of_Z 1] [F32.of_decimal 1 100000000]
  /\ (forall fuel : nat,
         F32.backtracking_while (S fuel)
           [F32.of_Z 1] [F32.of_decimal 1 100000000]
         = Returned (1%nat,
                     Broke {| F32.I_u := [F32.one];
                              F32.allocated_power := Some [F32.zero] |}))
  /\ (forall fuel : nat,
         F32.waterfilling_backtracking (S fuel)
           [F32.of_Z 1] [F32.of_decimal 1 100000000]
         = Returned [F32.zero])
  /\ F32.active [F32.one] = 1%nat
  /\ F32.tsum [F32.zero] = F32.zero
  /\ F32.tsum [F32.zero] <> F32.total_power.
Proof.
  split; [float_valid_input|].
  split; [intros fuel; vm_compute; reflexivity|].
  split; [intros fuel; vm_compute; reflexivity|].
  split; [reflexivity|]. split; [reflexivity|].
  vm_compute. discriminate.
Qed.

(** C1.  On N >= 1 agents with positive float32 weights and gains,
    [waterfilling_backtracking] returns an allocation of length N; when
    an agent is still active at the end, it is the trial allocation
    [I_u * (weights * inv_mu - 1/gains)] of the last iteration.  Computed
    in exact arithmetic on the same weights and gains, the allocation
    sums exactly to the budget [total_power] = 1. *)
Theorem backtracking_exhausts_budget (w g : F32.tensor) (fuel : nat) :
  F32.valid_input w g -> (length w < fuel)%nat ->
  (exists (n : nat) (ex : loop_exit F32.bt_state F32.tensor)
          (I' p : F32.tensor),
      F32.backtracking_while fuel w g = Returned (n, ex)
      /\ exit_state ex = Some {| F32.I_u := I';
                                 F32.allocated_power := Some p |}
      /\ F32.waterfilling_backtracking fuel w g = Returned p
      /\ length p = length w
      /\ ((1 <= F32.active I')%nat -> p = F32.trial_power I' w g))
  /\
  (exists (q : tensor),
      waterfilling_backtracking fuel (map F32.F2Q w) (map F32.F2Q g)
      = Returned q
      /\ length q = length w
      /\ (tsum q == total_power)%Q).
Proof.
  intros Hvalid Hfuel. split.
  - destruct Hvalid as (HN & Hlen & _).
    destruct (float_backtracking_exit w g Hlen HN Hfuel)
      as (n & I' & p & _ & _ & _ & Hlenp & Hret
          & [(Hrun & _ & Hp & _) | (Hrun & Hact & _)]);
      eexists; eexists; exists I', p;
      (split; [exact Hrun|]); (split; [reflexivity|]);
      (split; [exact Hret|]); (split; [exact Hlenp|]).
    + intros _. exact Hp.
    + intros H. lia.
  - destruct (@exact_backtracking_exhausts_budget
                (map F32.F2Q w) (map F32.F2Q g) fuel
                (float_valid_input_exact Hvalid))
      as (q & Hq & Hlenq & Hsum & _).
    + rewrite length_map. exact (Nat.lt_le_incl _ _ Hfuel).
    + exists q. rewrite length_map in Hlenq. auto.
Qed.

Lemma backtracking_exhausts_budget_witness :
  (exists p : F32.tensor,
      F32.waterfilling_backtracking 3
        [F32.of_Z 1; F32.of_Z 1] [F32.of_decimal 1 10; F32.of_Z 1000]
      = Returned p /\ length p = 2%nat)
  /\
  (exists q : tensor,
      waterfilling_backtracking 3
        (map F32.F2Q [F32.of_Z 1; F32.of_Z 1])
        (map F32.F2Q [F32.of_decimal 1 10; F32.of_Z 1000])
      = Returned q /\ (tsum q == total_power)%Q).
Proof.
  destruct (@backtracking_exhausts_budget
              [F32.of_Z 1; F32.of_Z 1] [F32.of_decimal 1 10; F32.of_Z 1000]
              3 float_valid_example ltac:(simpl; lia))
    as [(n & ex & I' & p & _ & _ & Hp & Hl & _) (q & Hq & _ & Hs)].
  split; [exists p | exists q]; split; assumption.
Defined.

(** C7, as stated, fails in float32.  Weights [41.], gains [2^-24]: the
    reciprocal of the gain is 2^24, and 1 + 2^24 rounds to 2^24; the
    water level 2^24 / 41 times the weight 41 rounds to 2^24 - 1, so the
    trial allocation of the only agent is -1.  The agent is deactivated
    and the loop is left through its condition, with the active set
    empty. *)
Lemma float_active_set_becomes_empty :
  F32.valid_input [F32.of_Z 41] [F32.div F32.one (F32.of_Z 16777216)]
  /\ (forall fuel : nat,
         F32.backtracking_while (S (S fuel))
           [F32.of_Z 41] [F32.div F32.one (F32.of_Z 16777216)]
         = Returned (1%nat,
                     CondFalse
                       {| F32.I_u := [F32.zero];
                          F32.allocated_power := Some [F32.of_Z (-1)] |}))
  /\ F32.active [F32.zero] = 0%nat
  /\ F32.backtracking_cond
       {| F32.I_u := [F32.zero];
          F32.allocated_power := Some [F32.of_Z (-1)] |} = false.
Proof.
  split; [float_valid_input|].
  split; [intros fuel; vm_compute; reflexivity|].
  split; reflexivity.
Qed.

(** C7.  On N >= 1 agents with positive float32 weights and gains the
    loop of [waterfilling_backtracking] starts between 1 and N
    iterations and is left either through [break], with an agent still
    active and no negative component in the allocation, or through its
    condition [torch.sum(I_u) > 0], with no agent active, after an
    iteration that found a negative component.  Computed in exact
    arithmetic on the same weights and gains, the loop is left through
    [break] with an agent still active, never through its condition. *)
Theorem backtracking_active_set_never_empty (w g : F32.tensor) (fuel : nat) :
  F32.valid_input w g -> (length w < fuel)%nat ->
  (exists (n : nat) (I' p : F32.tensor),
      (1 <= n <= length w)%nat
      /\ ((F32.backtracking_while fuel w g
           = Returned (n, Broke {| F32.I_u := I';
                                   F32.allocated_power := Some p |})
           /\ (1 <= F32.active I')%nat /\ F32.no_negative p)
          \/
          (F32.backtracking_while fuel w g
           = Returned (n, CondFalse {| F32.I_u := I';
                                       F32.allocated_power := Some p |})
           /\ F32.active I' = 0%nat /\ F32.some_negative p)))
  /\
  (exists (n : nat) (st : bt_state),
      backtracking_while fuel (map F32.F2Q w) (map F32.F2Q g)
      = Returned (n, Broke st)
      /\ (1 <= active (I_u st))%nat)
  /\
  (forall (n : nat) (st : bt_state),
      backtracking_while fuel (map F32.F2Q w) (map F32.F2Q g)
      <> Returned (n, CondFalse st)).
Proof.
  intros Hvalid Hfuel. split; [|split].
  - destruct Hvalid as (HN & Hlen & _).
    destruct (float_backtracking_exit w g Hlen HN Hfuel)
      as (n & I' & p & Hn & _ & _ & _ & _
          & [(Hrun & Hact & _ & Hnn) | (Hrun & Hact & Hsn)]);
      exists n, I', p; (split; [exact Hn|]); [left | right]; auto.
  - destruct (proj2 (proj2 (exact_backtracking_active_set_never_empty
                              (float_valid_input_exact Hvalid))) fuel)
      as (n & st & Hrun & Hact & _).
    + rewrite length_map. exact (Nat.lt_le_incl _ _ Hfuel).
    + exists n, st. auto.
  - intros n st.
    exact (proj1 (proj2 (exact_backtracking_active_set_never_empty
                           (float_valid_input_exact Hvalid))) fuel n st).
Qed.

Lemma backtracking_active_set_never_empty_witness :
  (exists (n : nat) (ex : loop_exit F32.bt_state F32.tensor),
      F32.backtracking_while 3
        [F32.of_Z 1; F32.of_Z 1] [F32.of_decimal 1 10; F32.of_Z 1000]
      = Returned (n, ex)
      /\ (1 <= n <= 2)%nat)
  /\
  (exists (n : nat) (st : bt_state),
      backtracking_while 3
        (map F32.F2Q [F32.of_Z 1; F32.of_Z 1])
        (map F32.F2Q [F32.of_decimal 1 10; F32.of_Z 1000])
      = Returned (n, Broke st)
      /\ (1 <= active (I_u st))%nat).
Proof.
  destruct (@backtracking_active_set_never_empty
              [F32.of_Z 1; F32.of_Z 1] [F32.of_decimal 1 10; F32.of_Z 1000]
              3 float_valid_example ltac:(simpl; lia))
    as [(n & I' & p & Hn & [(Hrun & _) | (Hrun & _)]) [Hexact _]];
    (split; [exists n; eexists; split; [exact Hrun | exact Hn]
            | exact Hexact]).
Defined.

(** C5.  The claim fails at weights [41.], gains [2^-24]: the only
    iteration computes the trial allocation [-1.] and deactivates the
    agent, the loop ends at its condition, and [return allocated_power]
    hands back the trial allocation of that iteration, whose component
    -1 is below 0. *)
Theorem backtracking_returns_negative_power :
  F32.valid_input [F32.of_Z 41] [F32.div F32.one (F32.of_Z 16777216)]
  /\ (forall fuel : nat,
         F32.waterfilling_backtracking (S (S fuel))
           [F32.of_Z 41] [F32.div F32.one (F32.of_Z 16777216)]
         = Returned [F32.of_Z (-1)])
  /\ F32.ltb (F32.of_Z (-1)) F32.zero = true
  /\ (F32.F2Q (F32.of_Z (-1)) == -1)%Q
  /\ F32.some_negative [F32.of_Z (-1)].
Proof.
  split; [float_valid_input|].
  split; [intros fuel; vm_compute; reflexivity|].
  split; [reflexivity|]. split; [reflexivity|].
  apply Exists_cons_hd. reflexivity.
Qed.

(** C2, as stated, fails in float32.  Weights [1.], gains [1.]: the
    upper bracket is 2.1, held as the float32 2.0999999046.  The
    tolerance 2.0999998 is strictly smaller, but the comparison casts it
    to float32, where it is that same float: the loop test is false, the
    body never runs and no allocation is returned. *)
Lemma float_bisection_tolerance_below_bracket :
  F32.valid_input [F32.of_Z 1] [F32.of_Z 1]
  /\ (0 < F32.F2Q (F32.double 20999998 10000000))%Q
  /\ (mu_max (bisection_init [1] [1]) == 21 # 10)%Q
  /\ (F32.F2Q (F32.double 20999998 10000000)
      < mu_max (bisection_init [1] [1]))%Q
  /\ (F32.F2Q (F32.double 20999998 10000000)
      < F32.F2Q (F32.mu_max (F32.bisection_init [F32.of_Z 1] [F32.of_Z 1])))%Q
  /\ F32.of_double (F32.double 20999998 10000000)
     = F32.mu_max (F32.bisection_init [F32.of_Z 1] [F32.of_Z 1])
  /\ (forall fuel : nat,
         F32.waterfilling_bisection (S fuel) [F32.of_Z 1] [F32.of_Z 1]
           (F32.double 20999998 10000000)
         = Returned None).
Proof.
  split; [float_valid_input|].
  split; [vm_compute; reflexivity|]. split; [reflexivity|].
  split; [vm_compute; reflexivity|]. split; [vm_compute; reflexivity|].
  split; [vm_compute; reflexivity|].
  intros fuel. vm_compute. reflexivity.
Qed.

(** C2.  On N weights and N gains, with a tolerance whose float32 value
    is strictly below the upper bracket [mu_max] that the float32 code
    computes, [waterfilling_bisection] returns during the first
    iteration of its loop: its result is
    [max(0, weight_u * mu - 1/gain_u)] for every agent, at the first
    midpoint [mu = (mu_min + mu_max) / 2], computed in float32.  The
    tolerance has no further effect. *)
Theorem bisection_returns_in_first_iteration
  (w g : F32.tensor) (epsilon : spec_float) (fuel : nat) :
  length w = length g -> (1 <= fuel)%nat ->
  F32.ltb (F32.of_double epsilon) (F32.mu_max (F32.bisection_init w g))
  = true ->
  F32.bisection_while fuel w g epsilon
  = Returned (1%nat,
              ReturnedFrom
                (F32.clipped_allocation
                   (F32.bisection_mid (F32.bisection_init w g)) w g))
  /\ F32.waterfilling_bisection fuel w g epsilon
     = Returned (Some (F32.clipped_allocation
                         (F32.bisection_mid (F32.bisection_init w g)) w g))
  /\ length (F32.clipped_allocation
               (F32.bisection_mid (F32.bisection_init w g)) w g)
     = length w.
Proof.
  intros Hlen Hfuel Hcond.
  destruct fuel as [|fuel]; [lia|].
  assert (Hrun := float_bisection_while_same_length w g epsilon fuel Hlen).
  rewrite float_bisection_cond_init, Hcond in Hrun.
  split; [exact Hrun|]. split.
  - unfold F32.waterfilling_bisection. rewrite Hrun. reflexivity.
  - unfold F32.clipped_allocation. now apply zip_with_length.
Qed.

Lemma bisection_returns_in_first_iteration_witness :
  F32.waterfilling_bisection 1 [F32.of_Z 1] [F32.of_Z 1]
    (F32.double 1 1000000)
  = Returned (Some (F32.clipped_allocation
                      (F32.bisection_mid
                         (F32.bisection_init [F32.of_Z 1] [F32.of_Z 1]))
                      [F32.of_Z 1] [F32.of_Z 1])).
Proof.
  exact (proj1 (proj2 (@bisection_returns_in_first_iteration
                         [F32.of_Z 1] [F32.of_Z 1] (F32.double 1 1000000) 1
                         eq_refl ltac:(lia) ltac:(vm_compute; reflexivity)))).
Defined.

(** C10, as stated, fails in float32.  Weights [3.], gains [1.]: the
    bracket width is 2/3 + 0.1 = 23/30, and the tolerance 0.76666668 is
    above it.  In float32 the bracket is 0.7666667104 and the tolerance
    0.7666666508, so the loop is entered and the allocation [0.15] of
    the first midpoint comes back. *)
Lemma float_bisection_wide_tolerance_returns_allocation :
  F32.valid_input [F32.of_Z 3] [F32.of_Z 1]
  /\ (mu_max (bisection_init [3] [1]) == 23 # 30)%Q
  /\ (mu_max (bisection_init [3] [1])
      <= F32.F2Q (F32.double 76666668 100000000))%Q
  /\ (forall fuel : nat,
         F32.waterfilling_bisection (S fuel) [F32.of_Z 3] [F32.of_Z 1]
           (F32.double 76666668 100000000)
         = Returned (Some [S754_finite false 10066336 (-26)]))
  /\ (F32.F2Q (S754_finite false 10066336 (-26)) == 314573 # 2097152)%Q.
Proof.
  split; [float_valid_input|].
  split; [reflexivity|]. split; [vm_compute; discriminate|].
  split; [intros fuel; vm_compute; reflexivity|]. reflexivity.
Qed.

(** C10.  On N weights and N gains, with a tolerance whose float32
    value is greater than or equal to the upper bracket [mu_max] that
    the float32 code computes (the bracket width, as [mu_min] is 0), the
    loop of [waterfilling_bisection] never executes its body and the
    function returns no allocation at all (Python's None). *)
Theorem bisection_wide_tolerance_returns_None
  (w g : F32.tensor) (epsilon : spec_float) (fuel : nat) :
  length w = length g -> (1 <= fuel)%nat ->
  F32.leb (F32.mu_max (F32.bisection_init w g)) (F32.of_double epsilon)
  = true ->
  F32.bisection_while fuel w g epsilon
  = Returned (0%nat, CondFalse (F32.bisection_init w g))
  /\ F32.waterfilling_bisection fuel w g epsilon = Returned None.
Proof.
  intros Hlen Hfuel Hle. destruct fuel as [|fuel]; [lia|].
  assert (Hrun := float_bisection_while_same_length w g epsilon fuel Hlen).
  rewrite float_bisection_cond_init, (float_leb_not_ltb _ _ Hle) in Hrun.
  split; [exact Hrun|].
  unfold F32.waterfilling_bisection. rewrite Hrun. reflexivity.
Qed.

Lemma bisection_wide_tolerance_returns_None_witness :
  F32.valid_input [F32.of_Z 1] [F32.of_Z 1]
  /\ F32.waterfilling_bisection 1 [F32.of_Z 1] [F32.of_Z 1]
       (F32.double 21 10)
     = Returned None.
Proof.
  split; [float_valid_input|].
  exact (proj2 (@bisection_wide_tolerance_returns_None
                  [F32.of_Z 1] [F32.of_Z 1] (F32.double 21 10) 1
                  eq_refl ltac:(lia) ltac:(vm_compute; reflexivity))).
Defined.

(** C8.  Neither solver nor the evaluator checks its inputs, and none of
    them raises [InvalidInputError].  Given sequences of one length,
    whatever the signs of their entries, [waterfilling_backtracking]
    (N >= 1) and [compute_weighted_rate] return a value, and
    [waterfilling_bisection] ends without raising. *)
Theorem inputs_are_not_validated :
  (forall (fuel : nat) (w g : F32.tensor),
      F32.waterfilling_backtracking fuel w g
      <> Raised "InvalidInputError"%string)
  /\ (forall (fuel : nat) (w g : F32.tensor) (epsilon : spec_float),
         F32.waterfilling_bisection fuel w g epsilon
         <> Raised "InvalidInputError"%string)
  /\ (forall gains weights allocation : list R,
         compute_weighted_rate gains weights allocation
         <> Raised "InvalidInputError"%string)
  /\ (forall (fuel : nat) (w g : F32.tensor),
         length w = length g -> (1 <= length w)%nat ->
         (length w < fuel)%nat ->
         exists p : F32.tensor,
           F32.waterfilling_backtracking fuel w g = Returned p
           /\ length p = length w)
  /\ (forall (fuel : nat) (w g : F32.tensor) (epsilon : spec_float),
         length w = length g -> (1 <= fuel)%nat ->
         exists r : option F32.tensor,
           F32.waterfilling_bisection fuel w g epsilon = Returned r)
  /\ (forall gains weights allocation : list R,
         length gains = length weights ->
         length weights = length allocation ->
         exists v : R,
           compute_weighted_rate gains weights allocation = Returned v).
Proof.
  split; [|split; [|split; [|split; [|split]]]].
  - intros fuel w g H.
    apply float_waterfilling_backtracking_raises in H.
    destruct H as [H | [H | H]]; discriminate.
  - intros fuel w g epsilon H.
    apply float_waterfilling_bisection_raises in H. discriminate.
  - intros gains weights allocation H.
    apply compute_weighted_rate_raises in H. discriminate.
  - intros fuel w g Hlen HN Hfuel.
    destruct (float_backtracking_exit w g Hlen HN Hfuel)
      as (n & I' & p & _ & _ & _ & Hlenp & Hret & _).
    exists p. auto.
  - intros fuel w g epsilon Hlen Hfuel.
    destruct fuel as [|fuel]; [lia|].
    unfold F32.waterfilling_bisection.
    rewrite (float_bisection_while_same_length w g epsilon fuel Hlen).
    destruct (F32.bisection_cond epsilon (F32.bisection_init w g));
      eexists; reflexivity.
  - intros gains weights allocation H1 H2.
    rewrite compute_weighted_rate_same_length by congruence.
    eexists; reflexivity.
Qed.

Lemma inputs_are_not_validated_witness :
  (exists p : F32.tensor,
      F32.waterfilling_backtracking 2 [F32.of_Z (-1)] [F32.of_Z 1]
      = Returned p /\ length p = 1%nat)
  /\ (exists v : R,
         compute_weighted_rate [1%R] [1%R] [(- (1 / 2))%R] = Returned v).
Proof.
  destruct inputs_are_not_validated as (_ & _ & _ & Hb & _ & He).
  split.
  - exact (Hb 2%nat [F32.of_Z (-1)] [F32.of_Z 1]
             eq_refl ltac:(simpl; lia) ltac:(simpl; lia)).
  - exact (He [1%R] [1%R] [(- (1 / 2))%R] eq_refl eq_refl).
Defined.

End FloatClaims.

(** * Further properties of the float32 solvers *)

Section FloatFacts.

(** On N >= 1 weights and N gains, whatever their values (negative,
    zero, infinite or nan included), the loop of
    [waterfilling_backtracking] starts between 1 and N iterations and
    the function returns a tensor of length N. *)
Theorem float_backtracking_terminates (w g : F32.tensor) (fuel : nat) :
  length w = length g -> (1 <= length w)%nat -> (length w < fuel)%nat ->
  exists (n : nat) (ex : loop_exit F32.bt_state F32.tensor)
         (p : F32.tensor),
    F32.backtracking_while fuel w g = Returned (n, ex)
    /\ (1 <= n <= length w)%nat
    /\ F32.waterfilling_backtracking fuel w g = Returned p
    /\ length p = length w.
Proof.
  intros Hlen HN Hfuel.
  destruct (float_backtracking_exit w g Hlen HN Hfuel)
    as (n & I' & p & Hn & _ & _ & Hlenp & Hret
        & [(Hrun & _) | (Hrun & _)]);
    exists n; eexists; exists p; (split; [exact Hrun|]); auto.
Qed.

Lemma float_backtracking_terminates_witness :
  exists (n : nat) (p : F32.tensor),
    (1 <= n <= 2)%nat
    /\ F32.waterfilling_backtracking 3
         [F32.of_Z 41; F32.of_Z 41]
         [F32.div F32.one (F32.of_Z 33554432);
          F32.div F32.one (F32.of_Z 16777216)]
       = Returned p
    /\ length p = 2%nat.
Proof.
  destruct (@float_backtracking_terminates
              [F32.of_Z 41; F32.of_Z 41]
              [F32.div F32.one (F32.of_Z 33554432);
               F32.div F32.one (F32.of_Z 16777216)]
              3 eq_refl ltac:(simpl; lia) ltac:(simpl; lia))
    as (n & ex & p & _ & Hn & Hp & Hl).
  exists n, p. auto.
Defined.

(** The allocation that [waterfilling_backtracking] returns has a
    negative component exactly when the loop was left through its
    condition, and none exactly when it was left through [break]. *)
Theorem float_negative_power_iff_condition_exit
  (w g : F32.tensor) (fuel : nat) :
  length w = length g -> (1 <= length w)%nat -> (length w < fuel)%nat ->
  exists (n : nat) (ex : loop_exit F32.bt_state F32.tensor)
         (p : F32.tensor),
    F32.backtracking_while fuel w g = Returned (n, ex)
    /\ F32.waterfilling_backtracking fuel w g = Returned p
    /\ ((exists st, ex = Broke st) <-> F32.no_negative p)
    /\ ((exists st, ex = CondFalse st) <-> F32.some_negative p).
Proof.
  intros Hlen HN Hfuel.
  destruct (float_backtracking_exit w g Hlen HN Hfuel)
    as (n & I' & p & _ & _ & _ & _ & Hret
        & [(Hrun & _ & _ & Hnn) | (Hrun & _ & Hsn)]);
    exists n; eexists; exists p; (split; [exact Hrun|]);
    (split; [exact Hret|]); split; split; intros H.
  - exact Hnn.
  - eexists; reflexivity.
  - destruct H as [st H]; discriminate.
  - exfalso. exact (float_no_negative_some_negative Hnn H).
  - destruct H as [st H]; discriminate.
  - exfalso. exact (float_no_negative_some_negative H Hsn).
  - exact Hsn.
  - eexists; reflexivity.
Qed.

Lemma float_negative_power_iff_condition_exit_witness :
  exists (n : nat) (ex : loop_exit F32.bt_state F32.tensor)
         (p : F32.tensor),
    F32.backtracking_while 2
      [F32.of_Z 41] [F32.div F32.one (F32.of_Z 16777216)]
    = Returned (n, ex)
    /\ ((exists st, ex = CondFalse st) <-> F32.some_negative p).
Proof.
  destruct (@float_negative_power_iff_condition_exit
              [F32.of_Z 41] [F32.div F32.one (F32.of_Z 16777216)]
              2 eq_refl ltac:(simpl; lia) ltac:(simpl; lia))
    as (n & ex & p & Hrun & _ & _ & H).
  exists n, ex, p. auto.
Defined.

(** Whatever [waterfilling_bisection] returns on N weights and N gains
    has length N and no negative component: the result is built by
    [torch.maximum] with zeros. *)
Theorem float_bisection_never_negative
  (w g : F32.tensor) (epsilon : spec_float) (fuel : nat) (p : F32.tensor) :
  length w = length g ->
  F32.waterfilling_bisection fuel w g epsilon = Returned (Some p) ->
  length p = length w /\ F32.no_negative p.
Proof.
  intros Hlen Hret. destruct fuel as [|fuel]; [discriminate|].
  unfold F32.waterfilling_bisection in Hret.
  rewrite (float_bisection_while_same_length w g epsilon fuel Hlen) in Hret.
  destruct (F32.bisection_cond epsilon (F32.bisection_init w g));
    simpl in Hret; [|discriminate].
  injection Hret as <-. split.
  - unfold F32.clipped_allocation. now apply zip_with_length.
  - apply float_clipped_no_negative.
Qed.

Lemma float_bisection_never_negative_witness :
  length [S754_finite false 10066336 (-26)] = 1%nat
  /\ F32.no_negative [S754_finite false 10066336 (-26)].
Proof.
  exact (@float_bisection_never_negative
           [F32.of_Z 3] [F32.of_Z 1] (F32.double 76666668 100000000) 1
           [S754_finite false 10066336 (-26)]
           eq_refl ltac:(vm_compute; reflexivity)).
Defined.

(** The loop test [torch.sum(I_u) > 0] of [waterfilling_backtracking]
    holds exactly when an agent is active, however many agents there
    are: a float32 sum of zeros and ones with a one in it is at least 1,
    also where it no longer counts the ones exactly. *)
Theorem float_loop_test_iff_active (st : F32.bt_state) :
  F32.binary (F32.I_u st) ->
  (F32.backtracking_cond st = true <-> (1 <= F32.active (F32.I_u st))%nat).
Proof.
  intros Hbin. split.
  - now apply float_cond_active.
  - intros Hact. unfold F32.backtracking_cond.
    now apply float_active_cond.
Qed.

Lemma float_loop_test_iff_active_witness :
  F32.backtracking_cond
    {| F32.I_u := [F32.zero; F32.one; F32.zero];
       F32.allocated_power := None |} = true
  <-> (1 <= F32.active [F32.zero; F32.one; F32.zero])%nat.
Proof.
  apply (@float_loop_test_iff_active
           {| F32.I_u := [F32.zero; F32.one; F32.zero];
              F32.allocated_power := None |}).
  simpl. apply Forall_cons; [left; reflexivity|].
  apply Forall_cons; [right; reflexivity|].
  apply Forall_cons; [left; reflexivity|]. apply Forall_nil.
Defined.

End FloatFacts.
